(** * RuntimeStore of the unified data management framework (UDMF)

    A shallow embedding of [framework/manager/store/runtime_store.cpp] and of
    [framework/innerkitsimpl/data/system_defined_form.cpp], and the
    properties of the store operations: Put, Get, GetSummary, Update, Delete,
    DeleteBatch and GetDatas.

    The store sits on three collaborators whose code is outside the two
    files: the key-value engine behind [kvStore_], the TLV codec [TLVUtil]
    and the data classes of the framework headers.  Each is an interface
    here (a type class); the operations of the store are written against the
    interfaces as the C++ is written against the headers.  An engine in
    memory and a small codec instantiate the interfaces, so that every
    statement below is also run on data. *)

From Stdlib Require Import ZArith Ascii.
From Stdlib Require Strings.Byte.
From Stdlib Require Import Init.Byte.
From stdpp Require Import gmap strings list sorting lexico.

Local Open Scope Z_scope.

(** ** Status codes *)

(** [Status] of the framework: the four codes runtime_store.cpp returns. *)
Inductive Status := E_OK | E_INVALID_PARAMETERS | E_UNKNOWN | E_DB_ERROR.

Global Instance Status_eq_dec : EqDecision Status.
Proof. solve_decision. Defined.

(** [DBStatus] of the engine.  The store names [OK], [NOT_FOUND] and
    [NOT_SUPPORT]; every other code of the engine is [OTHER]. *)
Module DBStatus.
Inductive t := OK | NOT_FOUND | NOT_SUPPORT | OTHER (code : N).

Global Instance eq_dec : EqDecision t.
Proof. solve_decision. Defined.
End DBStatus.

(** ** Keys, values and entries of the engine *)

(** [Key] and [Value] are [std::vector<uint8_t>]. *)
Abbreviation Key := (list byte).
Abbreviation Value := (list byte).

Global Instance byte_eq_dec : EqDecision byte := Strings.Byte.byte_eq_dec.

Module Entry.
Record t := mk { key : Key; value : Value }.

Global Instance eq_dec : EqDecision t.
Proof. solve_decision. Defined.
End Entry.
Abbreviation Entry := Entry.t.

(** [Key k = { s.begin(), s.end() }]: the characters of a [std::string] as
    bytes, and [std::string s(k.begin(), k.end())] back. *)
Definition Key_of_string (s : string) : Key := String.list_byte_of_string s.
Definition string_of_Key (k : Key) : string := String.string_of_list_byte k.

(** ** 64-bit signed integers *)

(** An [int64_t] is a [Z]; arithmetic wraps to the two's complement range. *)
Definition INT64_MAX : Z := 2 ^ 63 - 1.
Definition to_int64 (z : Z) : Z := (z + 2 ^ 63) mod 2 ^ 64 - 2 ^ 63.

(** ** The KV engine: [DistributedDB::KvStoreNbDelegate] *)

(** The three calls the store makes on [kvStore_].  [PutBatch] and
    [DeleteBatch] change the engine; [GetEntries] is a const method, run
    here with the prefix of its [Query::Select().PrefixKey(prefix)]. *)
Module KvStoreNbDelegate.
Class t (St : Type) := {
  PutBatch : list Entry → St → DBStatus.t * St;
  DeleteBatch : list Key → St → DBStatus.t * St;
  GetEntries : Key → St → DBStatus.t * list Entry
}.
End KvStoreNbDelegate.

(** ** Declarations of the framework headers *)

(** Parts of unified_meta.h, unified_key.h, unified_data.h and
    unified_data_utils.h that the two source files use: the enum [UDType]
    with its enumerator [SYSTEM_DEFINED_FORM], the table [UD_TYPE_MAP]
    ([None] where [at] finds no entry and throws), [UDDetails] with the
    helper [UnifiedDataUtils::GetDetailsSize], and [Runtime] with its member
    [key], a [UnifiedKey] with a string member [key] and the method
    [GetUnifiedKey]. *)
Class UnifiedMeta := {
  UDType : Type;
  SYSTEM_DEFINED_FORM : UDType;
  UD_TYPE_MAP : UDType → option string;
  UDDetails : Type;
  GetDetailsSize : UDDetails → Z;
  UnifiedKey : Type;
  UnifiedKey_key : UnifiedKey → string;
  GetUnifiedKey : UnifiedKey → string;
  Runtime : Type;
  Runtime_key : Runtime → UnifiedKey
}.

(** ** system_defined_form.cpp *)

Module SystemDefinedForm.
Section SystemDefinedForm.
Context {meta : UnifiedMeta}.

(** The members of the class and of its bases [SystemDefinedRecord]
    ([details_]) and [UnifiedRecord] ([uid_]); [dataType_] is set to
    [SYSTEM_DEFINED_FORM] by the constructor. *)
Record t := mk {
  uid_ : string;
  details_ : UDDetails;
  formId_ : Z;
  formName_ : string;
  bundleName_ : string;
  abilityName_ : string;
  module_ : string
}.

(** [sizeof(formId_)] for the [int32_t] member. *)
Definition sizeof_formId : Z := 4.

Definition size (s : string) : Z := Z.of_nat (String.length s).

(** The sum is taken in 64 bits and returned as [int64_t]. *)
Definition GetSize (this : t) : Z :=
  to_int64 (GetDetailsSize (details_ this) + sizeof_formId + size (formName_ this)
            + size (bundleName_ this) + size (abilityName_ this) + size (module_ this)).

Definition GetFormId (this : t) : Z := formId_ this.
Definition GetFormName (this : t) : string := formName_ this.
Definition GetBundleName (this : t) : string := bundleName_ this.
Definition GetAbilityName (this : t) : string := abilityName_ this.
Definition GetModule (this : t) : string := module_ this.

(** The setters overwrite one member each. *)
Definition SetFormId (formId : Z) (this : t) : t :=
  mk (uid_ this) (details_ this) formId (formName_ this) (bundleName_ this)
     (abilityName_ this) (module_ this).
Definition SetFormName (formName : string) (this : t) : t :=
  mk (uid_ this) (details_ this) (formId_ this) formName (bundleName_ this)
     (abilityName_ this) (module_ this).
Definition SetBundleName (bundleName : string) (this : t) : t :=
  mk (uid_ this) (details_ this) (formId_ this) (formName_ this) bundleName
     (abilityName_ this) (module_ this).
Definition SetAbilityName (abilityName : string) (this : t) : t :=
  mk (uid_ this) (details_ this) (formId_ this) (formName_ this) (bundleName_ this)
     abilityName (module_ this).
Definition SetModule (module : string) (this : t) : t :=
  mk (uid_ this) (details_ this) (formId_ this) (formName_ this) (bundleName_ this)
     (abilityName_ this) module.
End SystemDefinedForm.
End SystemDefinedForm.

(** ** Records and unified data *)

Section Records.
Context {meta : UnifiedMeta}.

(** A [std::shared_ptr<UnifiedRecord>] that is not null points to a
    [SystemDefinedForm] or to a record of another kind; the classes of the
    other kinds are outside the two files, and such a record is given by
    what its virtual [GetType], [GetUid] and [GetSize] return. *)
Inductive UnifiedRecord :=
| Form (form : SystemDefinedForm.t)
| OtherRecord (dataType : UDType) (uid : string) (size : Z).

Definition GetType (record : UnifiedRecord) : UDType :=
  match record with
  | Form _ => SYSTEM_DEFINED_FORM
  | OtherRecord dataType _ _ => dataType
  end.

Definition GetUid (record : UnifiedRecord) : string :=
  match record with
  | Form form => SystemDefinedForm.uid_ form
  | OtherRecord _ uid _ => uid
  end.

Definition GetSize (record : UnifiedRecord) : Z :=
  match record with
  | Form form => SystemDefinedForm.GetSize form
  | OtherRecord _ _ size => size
  end.

(** [UnifiedData]: a [std::shared_ptr<Runtime>] and a vector of
    [std::shared_ptr<UnifiedRecord>]; [None] is the null pointer. *)
Record UnifiedData := mkUnifiedData {
  runtime_ : option Runtime;
  records_ : list (option UnifiedRecord)
}.

(** A default-constructed [UnifiedData]. *)
Definition UnifiedData_new : UnifiedData :=
  {| runtime_ := None; records_ := [] |}.

(** Modelled from the spec: [UnifiedData::SetRuntime], of unified_data.cpp,
    assigns the runtime block. *)
Definition SetRuntime (runtime : Runtime) (this : UnifiedData) : UnifiedData :=
  {| runtime_ := Some runtime; records_ := records_ this |}.

(** Modelled from the spec: [UnifiedData::AddRecord], of unified_data.cpp,
    appends to the record sequence. *)
Definition AddRecord (record : UnifiedRecord) (this : UnifiedData) : UnifiedData :=
  {| runtime_ := runtime_ this; records_ := records_ this ++ [Some record] |}.

(** [Summary]: [std::map<std::string, int64_t> summary] and
    [int64_t totalSize]. *)
Record Summary := mkSummary {
  summary : gmap string Z;
  totalSize : Z
}.

(** Modelled from the spec: a freshly constructed [Summary], with no kind
    and a total of zero. *)
Definition Summary_new : Summary := {| summary := ∅; totalSize := 0 |}.
End Records.

(** ** The codec: [TLVUtil] *)

(** [TLVUtil::Writing] fills a byte vector and [TLVUtil::Reading] an object;
    both return [bool], and [None] is [false]. *)
Class TLVUtil {meta : UnifiedMeta} := {
  Writing_record : UnifiedRecord → option (list byte);
  Writing_runtime : Runtime → option (list byte);
  Reading_runtime : list byte → option Runtime;
  Reading_record : list byte → option UnifiedRecord
}.

(** ** runtime_store.cpp *)

(** The engine behind [kvStore_] is a state [s : St]: every operation takes
    it, and the operations that write return it as they leave it.  An
    operation that dereferences a null pointer, or lets [std::map::at]
    throw, has no result: [None].  The constructor, the destructor, [Init],
    [Close] and [Sync] manage the handle of the engine and the peers; they
    are not embedded. *)
Module RuntimeStore.
Section RuntimeStore.
Context {meta : UnifiedMeta} {codec : TLVUtil} {St : Type}
  {engine : KvStoreNbDelegate.t St}.

Definition DATA_PREFIX : string := "udmf://".
Definition SLASH_COUNT_IN_KEY : Z := 4.

(** [std::count(s.begin(), s.end(), c)]. *)
Fixpoint std_count (s : string) (c : ascii) : Z :=
  match s with
  | EmptyString => 0
  | String a rest => (if decide (a = c) then 1 else 0) + std_count rest c
  end.

(** [GetEntries]: the status of the engine is only logged, and whatever
    the engine put in [entries] is returned. *)
Definition GetEntries (dataPrefix : string) (s : St) : list Entry :=
  let prefix := Key_of_string dataPrefix in
  let '(status, entries) := KvStoreNbDelegate.GetEntries prefix s in
  entries.

(** The loop of [Put] over [unifiedData.GetRecords()]; [inl] is the early
    return. *)
Fixpoint Put_records (unifiedKey : string) (records : list (option UnifiedRecord))
    (entries : list Entry) : Status + list Entry :=
  match records with
  | [] => inr entries
  | None :: rest => Put_records unifiedKey rest entries
  | Some record :: rest =>
      match Writing_record record with
      | None => inl E_INVALID_PARAMETERS
      | Some recordBytes =>
          let recordKeyStr := unifiedKey +:+ "/" +:+ GetUid record in
          let recordKey := Key_of_string recordKeyStr in
          let entry := Entry.mk recordKey recordBytes in
          Put_records unifiedKey rest (entries ++ [entry])
      end
  end.

Definition Put (unifiedData : UnifiedData) (s : St) : option (Status * St) :=
  runtime ← runtime_ unifiedData;
  let unifiedKey := GetUnifiedKey (Runtime_key runtime) in
  match Put_records unifiedKey (records_ unifiedData) [] with
  | inl status => Some (status, s)
  | inr entries =>
      match Writing_runtime runtime with
      | None => Some (E_UNKNOWN, s)
      | Some runtimeBytes =>
          let runtimeKey := Key_of_string unifiedKey in
          let entry := Entry.mk runtimeKey runtimeBytes in
          let entries := entries ++ [entry] in
          let '(status, s') := KvStoreNbDelegate.PutBatch entries s in
          if decide (status ≠ DBStatus.OK) then Some (E_DB_ERROR, s')
          else Some (E_OK, s')
      end
  end.

(** The loop of [Get] over the scanned entries. *)
Fixpoint Get_entries (key : string) (entries : list Entry) (unifiedData : UnifiedData)
    : Status * UnifiedData :=
  match entries with
  | [] => (E_OK, unifiedData)
  | entry :: rest =>
      let keyStr := string_of_Key (Entry.key entry) in
      if decide (keyStr = key) then
        match Reading_runtime (Entry.value entry) with
        | None => (E_UNKNOWN, unifiedData)
        | Some runtime => Get_entries key rest (SetRuntime runtime unifiedData)
        end
      else
        match Reading_record (Entry.value entry) with
        | None => (E_UNKNOWN, unifiedData)
        | Some record => Get_entries key rest (AddRecord record unifiedData)
        end
  end.

(** [Get(key, unifiedData)]: the status, and [unifiedData] as the call
    leaves it. *)
Definition Get (key : string) (unifiedData : UnifiedData) (s : St)
    : Status * UnifiedData :=
  let entries := GetEntries key s in
  match entries with
  | [] => (E_OK, unifiedData)
  | _ :: _ => Get_entries key entries unifiedData
  end.

(** The loop of [GetSummary] over the records; [summary.summary[k] += n]
    and [summary.totalSize += n] are 64-bit additions. *)
Fixpoint GetSummary_records (records : list (option UnifiedRecord)) (summary0 : Summary)
    : option Summary :=
  match records with
  | [] => Some summary0
  | record :: rest =>
      record ← record;
      let recordSize := GetSize record in
      name ← UD_TYPE_MAP (GetType record);
      let map :=
        match summary summary0 !! name with
        | None => <[name := recordSize]> (summary summary0)
        | Some old => <[name := to_int64 (old + recordSize)]> (summary summary0)
        end in
      GetSummary_records rest
        {| summary := map; totalSize := to_int64 (totalSize summary0 + recordSize) |}
  end.

Definition GetSummary (key : string) (summary0 : Summary) (s : St)
    : option (Status * Summary) :=
  let '(status, unifiedData) := Get key UnifiedData_new s in
  if decide (status ≠ E_OK) then Some (E_DB_ERROR, summary0)
  else
    summary1 ← GetSummary_records (records_ unifiedData) summary0;
    Some (E_OK, summary1).

Definition Delete (key : string) (s : St) : Status * St :=
  let entries := GetEntries key s in
  match entries with
  | [] => (E_OK, s)
  | _ :: _ =>
      let keys := Entry.key <$> entries in
      let '(status, s') := KvStoreNbDelegate.DeleteBatch keys s in
      if decide (status ≠ DBStatus.OK) then (E_DB_ERROR, s') else (E_OK, s')
  end.

Definition Update (unifiedData : UnifiedData) (s : St) : option (Status * St) :=
  runtime ← runtime_ unifiedData;
  let key := UnifiedKey_key (Runtime_key runtime) in
  let '(status, s1) := Delete key s in
  if decide (status ≠ E_OK) then Some (E_DB_ERROR, s1)
  else
    '(status, s2) ← Put unifiedData s1;
    if decide (status ≠ E_OK) then Some (E_DB_ERROR, s2) else Some (E_OK, s2).

(** The loop of [DeleteBatch]:
    [status = status == E_OK ? Delete(timeoutKey) : status]. *)
Fixpoint DeleteBatch_keys (timeoutKeys : list string) (status : Status) (s : St)
    : Status * St :=
  match timeoutKeys with
  | [] => (status, s)
  | timeoutKey :: rest =>
      let '(status, s) :=
        if decide (status = E_OK) then Delete timeoutKey s else (status, s) in
      DeleteBatch_keys rest status s
  end.

Definition DeleteBatch (timeoutKeys : list string) (s : St) : Status * St :=
  let status := E_OK in
  match timeoutKeys with
  | [] => (status, s)
  | _ :: _ => DeleteBatch_keys timeoutKeys status s
  end.

Definition Clear (s : St) : Status * St :=
  let '(status, s') := Delete DATA_PREFIX s in
  (if decide (status ≠ E_DB_ERROR) then E_OK else E_DB_ERROR, s').

(** The loop of [GetDatas] over the scanned entries. *)
Fixpoint GetDatas_entries (entries : list Entry) (s : St) (unifiedDatas : list UnifiedData)
    : list UnifiedData :=
  match entries with
  | [] => unifiedDatas
  | entry :: rest =>
      let data := UnifiedData_new in
      let keyStr := string_of_Key (Entry.key entry) in
      if decide (std_count keyStr "/" = SLASH_COUNT_IN_KEY) then
        let '(_, data) := Get keyStr data s in
        GetDatas_entries rest s (unifiedDatas ++ [data])
      else GetDatas_entries rest s unifiedDatas
  end.

Definition GetDatas (dataPrefix : string) (s : St) : list UnifiedData :=
  let unifiedDatas := [] in
  let entries := GetEntries dataPrefix s in
  match entries with
  | [] => unifiedDatas
  | _ :: _ => GetDatas_entries entries s unifiedDatas
  end.
End RuntimeStore.
End RuntimeStore.

(** ** The order of keys in the engine *)

(** The engine compares keys as byte strings: byte by byte, a proper prefix
    first.  [lexico] on [Key] is that order. *)
Global Instance byte_lexico : Lexico byte :=
  λ a b, (Strings.Byte.to_N a < Strings.Byte.to_N b)%N.

Global Instance byte_lexico_po : StrictOrder (@lexico byte _).
Proof.
  split.
  - intros a. unfold complement, lexico, byte_lexico. apply N.lt_irrefl.
  - intros a b c. unfold lexico, byte_lexico. apply N.lt_trans.
Qed.

Global Instance byte_lexico_trichotomy : TrichotomyT (@lexico byte _).
Proof.
  intros a b. unfold lexico, byte_lexico.
  destruct (N.compare (Strings.Byte.to_N a) (Strings.Byte.to_N b)) eqn:E.
  - left; right. apply N.compare_eq in E.
    pose proof (Strings.Byte.of_to_N a) as Ha.
    rewrite E, Strings.Byte.of_to_N in Ha. congruence.
  - left; left. apply N.compare_lt_iff, E.
  - right. apply N.compare_gt_iff, E.
Defined.

Global Instance byte_countable : Countable byte :=
  inj_countable Strings.Byte.to_N Strings.Byte.of_N Strings.Byte.of_to_N.

(** ** What the store expects of the engine *)

(** The value a batch writes under [k]: that of the last entry with the key. *)
Fixpoint batch_value (entries : list Entry) (k : Key) : option Value :=
  match entries with
  | [] => None
  | e :: rest =>
      match batch_value rest k with
      | Some v => Some v
      | None => if decide (Entry.key e = k) then Some (Entry.value e) else None
      end
  end.

(** An ordered key-value store with atomic batches, seen through its prefix
    scan: a scan returns its entries in ascending order of key, one per key;
    after a batch write that returned [OK] a scan shows, under the prefix,
    the batch over what was there; after a batch delete that returned [OK]
    it shows what was there less the deleted keys. *)
Class KvStoreLaws (St : Type) {engine : KvStoreNbDelegate.t St} : Prop := {
  GetEntries_sorted (p : Key) (s : St) :
    StronglySorted lexico (Entry.key <$> (KvStoreNbDelegate.GetEntries p s).2);
  PutBatch_OK (entries : list Entry) (s s' : St) (p : Key) (e : Entry) :
    KvStoreNbDelegate.PutBatch entries s = (DBStatus.OK, s') →
    e ∈ (KvStoreNbDelegate.GetEntries p s').2 ↔
      p `prefix_of` Entry.key e ∧
      (batch_value entries (Entry.key e) = Some (Entry.value e) ∨
       batch_value entries (Entry.key e) = None ∧
       e ∈ (KvStoreNbDelegate.GetEntries p s).2);
  DeleteBatch_OK (keys : list Key) (s s' : St) (p : Key) (e : Entry) :
    KvStoreNbDelegate.DeleteBatch keys s = (DBStatus.OK, s') →
    e ∈ (KvStoreNbDelegate.GetEntries p s').2 ↔
      e ∈ (KvStoreNbDelegate.GetEntries p s).2 ∧ Entry.key e ∉ keys
}.

(** ** An engine in memory *)

(** A finite map from keys to values with a bound on the size of a batch: a
    batch longer than [max_batch] is refused and nothing is written. *)
Module MemKv.
Record t := mk { store : gmap Key Value; max_batch : nat }.

Definition Entry_le (e1 e2 : Entry) : Prop :=
  ¬ lexico (Entry.key e2) (Entry.key e1).

Global Instance Entry_le_dec : RelDecision Entry_le.
Proof. intros e1 e2. unfold Entry_le. apply _. Defined.

Definition entries_of (m : gmap Key Value) : list Entry :=
  (λ kv, Entry.mk kv.1 kv.2) <$> map_to_list m.

Definition scan (p : Key) (m : gmap Key Value) : list Entry :=
  merge_sort Entry_le (filter (λ e, p `prefix_of` Entry.key e) (entries_of m)).

Definition PutBatch (entries : list Entry) (s : t) : DBStatus.t * t :=
  if decide (length entries ≤ max_batch s)%nat then
    (DBStatus.OK,
     mk (foldl (λ m e, <[Entry.key e := Entry.value e]> m) (store s) entries)
        (max_batch s))
  else (DBStatus.OTHER 1, s).

Definition DeleteBatch (keys : list Key) (s : t) : DBStatus.t * t :=
  if decide (length keys ≤ max_batch s)%nat then
    (DBStatus.OK, mk (foldl (λ m k, delete k m) (store s) keys) (max_batch s))
  else (DBStatus.OTHER 1, s).

Definition GetEntries (p : Key) (s : t) : DBStatus.t * list Entry :=
  match scan p (store s) with
  | [] => (DBStatus.NOT_FOUND, [])
  | entries => (DBStatus.OK, entries)
  end.

Global Instance engine : KvStoreNbDelegate.t t :=
  {| KvStoreNbDelegate.PutBatch := PutBatch;
     KvStoreNbDelegate.DeleteBatch := DeleteBatch;
     KvStoreNbDelegate.GetEntries := GetEntries |}.

(** The engine holding [entries], written in order. *)
Definition of_entries (entries : list Entry) (max_batch : nat) : t :=
  mk (foldl (λ m e, <[Entry.key e := Entry.value e]> m) ∅ entries) max_batch.
End MemKv.

(** ** A small instance of the headers and of the codec *)

(** Enough of the framework to run the store: types are numbers, a unified
    key is its string, a runtime block is a key and a creation time, and the
    codec writes one byte per number and a length byte before a string, so
    that numbers and lengths above 255 do not encode. *)
Module Sample.
Record RuntimeBlock := mkRuntime { key : string; createTime : N }.

Definition details_size (details : list (string * string)) : Z :=
  foldr (λ kv n, SystemDefinedForm.size kv.1 + SystemDefinedForm.size kv.2 + n) 0 details.

Global Instance meta : UnifiedMeta :=
  {| UDType := N;
     SYSTEM_DEFINED_FORM := 9%N;
     UD_TYPE_MAP := λ t,
       match t with
       | 0%N => Some "Text"
       | 9%N => Some "SystemDefinedForm"
       | _ => None
       end;
     UDDetails := list (string * string);
     GetDetailsSize := details_size;
     UnifiedKey := string;
     UnifiedKey_key := λ k, k;
     GetUnifiedKey := λ k, k;
     Runtime := RuntimeBlock;
     Runtime_key := key |}.

Definition put_string (s : string) : option (list byte) :=
  n ← Strings.Byte.of_N (N.of_nat (String.length s));
  Some (n :: Key_of_string s).

Definition get_string (bytes : list byte) : option (string * list byte) :=
  match bytes with
  | [] => None
  | n :: rest =>
      let len := N.to_nat (Strings.Byte.to_N n) in
      if decide (len ≤ length rest)%nat
      then Some (string_of_Key (take len rest), drop len rest)
      else None
  end.

Definition encode_runtime (runtime : RuntimeBlock) : option (list byte) :=
  t ← Strings.Byte.of_N (createTime runtime);
  Some (t :: Key_of_string (key runtime)).

Definition decode_runtime (bytes : list byte) : option RuntimeBlock :=
  match bytes with
  | [] => None
  | t :: rest => Some (mkRuntime (string_of_Key rest) (Strings.Byte.to_N t))
  end.

Definition encode_record (record : UnifiedRecord) : option (list byte) :=
  match record with
  | OtherRecord dataType uid size =>
      t ← Strings.Byte.of_N dataType;
      n ← (if decide (0 ≤ size) then Strings.Byte.of_N (Z.to_N size) else None);
      Some (x00 :: t :: n :: Key_of_string uid)
  | Form form =>
      match SystemDefinedForm.details_ form with
      | _ :: _ => None
      | [] =>
          id ← (if decide (0 ≤ SystemDefinedForm.formId_ form)
                then Strings.Byte.of_N (Z.to_N (SystemDefinedForm.formId_ form))
                else None);
          uid ← put_string (SystemDefinedForm.uid_ form);
          formName ← put_string (SystemDefinedForm.formName_ form);
          bundleName ← put_string (SystemDefinedForm.bundleName_ form);
          abilityName ← put_string (SystemDefinedForm.abilityName_ form);
          Some (x01 :: id :: uid ++ formName ++ bundleName ++ abilityName
                  ++ Key_of_string (SystemDefinedForm.module_ form))
      end
  end.

Definition decode_record (bytes : list byte) : option UnifiedRecord :=
  match bytes with
  | x00 :: t :: n :: rest =>
      Some (OtherRecord (Strings.Byte.to_N t) (string_of_Key rest)
              (Z.of_N (Strings.Byte.to_N n)))
  | x01 :: id :: rest =>
      '(uid, rest) ← get_string rest;
      '(formName, rest) ← get_string rest;
      '(bundleName, rest) ← get_string rest;
      '(abilityName, rest) ← get_string rest;
      Some (Form (SystemDefinedForm.mk uid [] (Z.of_N (Strings.Byte.to_N id))
                    formName bundleName abilityName (string_of_Key rest)))
  | _ => None
  end.

Global Instance codec : TLVUtil :=
  {| Writing_record := encode_record;
     Writing_runtime := encode_runtime;
     Reading_runtime := decode_runtime;
     Reading_record := decode_record |}.
End Sample.

(** ** Vocabulary of the properties *)

Section Vocabulary.
Context {meta : UnifiedMeta} {codec : TLVUtil} {St : Type}
  {engine : KvStoreNbDelegate.t St}.

(** The records of a sequence that are not null, in order. *)
Definition non_null (records : list (option UnifiedRecord)) : list UnifiedRecord :=
  omap id records.

(** The member key of a record under a group key. *)
Definition member_key (unifiedKey : string) (record : UnifiedRecord) : Key :=
  Key_of_string (unifiedKey +:+ "/" +:+ GetUid record).

(** [entry] is the entry [Put] builds for [record]: the member key and the
    bytes the codec wrote. *)
Definition is_record_entry (unifiedKey : string) (record : UnifiedRecord) (entry : Entry)
    : Prop :=
  Entry.key entry = member_key unifiedKey record ∧
  Writing_record record = Some (Entry.value entry).

(** The status [Put] and [Delete] make of the status of the engine. *)
Definition of_DBStatus (r : DBStatus.t * St) : Status * St :=
  (if decide (r.1 = DBStatus.OK) then E_OK else E_DB_ERROR, r.2).

(** [E_DB_ERROR] for every status but [E_OK]. *)
Definition as_DbError (status : Status) : Status :=
  if decide (status = E_OK) then E_OK else E_DB_ERROR.

(** One scanned entry decoded into [unifiedData]: as the runtime block
    under the exact key, as a record under any other key. *)
Definition decode_entry (key : string) (entry : Entry) (unifiedData : UnifiedData)
    : option UnifiedData :=
  if decide (string_of_Key (Entry.key entry) = key)
  then runtime ← Reading_runtime (Entry.value entry);
       Some (SetRuntime runtime unifiedData)
  else record ← Reading_record (Entry.value entry);
       Some (AddRecord record unifiedData).

Fixpoint decode_entries (key : string) (entries : list Entry) (unifiedData : UnifiedData)
    : option UnifiedData :=
  match entries with
  | [] => Some unifiedData
  | entry :: rest =>
      unifiedData ← decode_entry key entry unifiedData;
      decode_entries key rest unifiedData
  end.

(** [Delete] on every key of a list in turn, as long as each returns
    [E_OK]: the engine at the end, or [None] when one does not. *)
Fixpoint Deletes_OK (keys : list string) (s : St) : option St :=
  match keys with
  | [] => Some s
  | key :: rest =>
      let '(status, s') := RuntimeStore.Delete key s in
      if decide (status = E_OK) then Deletes_OK rest s' else None
  end.

(** [Delete(data.Runtime.key)] followed by [Put(data)], read in two ways:
    [Put] runs whatever [Delete] returned, and its status is the result; or
    the first status that is not [E_OK] ends the sequence and is the
    result. *)
Definition Delete_then_Put (unifiedData : UnifiedData) (s : St) : option (Status * St) :=
  runtime ← runtime_ unifiedData;
  let '(_, s1) := RuntimeStore.Delete (UnifiedKey_key (Runtime_key runtime)) s in
  RuntimeStore.Put unifiedData s1.

Definition Delete_and_then_Put (unifiedData : UnifiedData) (s : St)
    : option (Status * St) :=
  runtime ← runtime_ unifiedData;
  let '(status, s1) := RuntimeStore.Delete (UnifiedKey_key (Runtime_key runtime)) s in
  if decide (status = E_OK) then RuntimeStore.Put unifiedData s1 else Some (status, s1).

(** A key with the slash count of a group key, and with that of a member
    key. *)
Definition is_group_key (k : Key) : Prop :=
  RuntimeStore.std_count (string_of_Key k) "/" = RuntimeStore.SLASH_COUNT_IN_KEY.
Definition is_member_key (k : Key) : Prop :=
  RuntimeStore.std_count (string_of_Key k) "/" = RuntimeStore.SLASH_COUNT_IN_KEY + 1.

(** Sums of record sizes and of the values of a summary map. *)
Definition sum_sizes (records : list UnifiedRecord) : Z :=
  foldr (λ record n, GetSize record + n) 0 records.
Definition map_total (m : gmap string Z) : Z :=
  foldr (λ kv n, kv.2 + n) 0 (map_to_list m).

(** The records of one kind, and a size entry of the summary map after
    their sizes are added to it. *)
Definition of_kind (name : string) (records : list UnifiedRecord) : list UnifiedRecord :=
  filter (λ record, UD_TYPE_MAP (GetType record) = Some name) records.

Definition add_sizes (old : option Z) (records : list UnifiedRecord) : option Z :=
  match records with
  | [] => old
  | _ :: _ => Some (default 0 old + sum_sizes records)
  end.

(** A record whose kind has a name in [UD_TYPE_MAP] and whose size is not
    negative. *)
Definition sized (record : UnifiedRecord) : Prop :=
  is_Some (UD_TYPE_MAP (GetType record)) ∧ 0 ≤ GetSize record.

(** The order of records by uid, as the engine orders their member keys. *)
Definition uid_lt (record1 record2 : UnifiedRecord) : Prop :=
  lexico (Key_of_string (GetUid record1)) (Key_of_string (GetUid record2)).

Global Instance uid_lt_dec : RelDecision uid_lt.
Proof. intros record1 record2. unfold uid_lt. apply _. Defined.

(** The codec reads back the record it wrote. *)
Definition decodes_back (record : UnifiedRecord) : Prop :=
  ∃ bytes, Writing_record record = Some bytes ∧ Reading_record bytes = Some record.

(** [k] is the group key or the member key of one of [records]. *)
Definition own_key (unifiedKey : string) (records : list UnifiedRecord) (k : Key) : Prop :=
  k = Key_of_string unifiedKey ∨
  ∃ record, record ∈ records ∧ k = member_key unifiedKey record.

(** The entry of a record, with the bytes the codec writes for it. *)
Definition entry_of (unifiedKey : string) (record : UnifiedRecord) : Entry :=
  Entry.mk (member_key unifiedKey record) (default [] (Writing_record record)).

(** [Put(d)] and then [Get(d.Runtime.key.GetUnifiedKey())] into a new
    object, on the engine as [Put] left it. *)
Definition Put_then_Get (unifiedData : UnifiedData) (s : St)
    : option (Status * UnifiedData) :=
  runtime ← runtime_ unifiedData;
  '(_, s') ← RuntimeStore.Put unifiedData s;
  Some (RuntimeStore.Get (GetUnifiedKey (Runtime_key runtime)) UnifiedData_new s').

(** The round trip: [Get] returns [E_OK] and the object that was put. *)
Definition round_trips (unifiedData : UnifiedData) (s : St) : Prop :=
  Put_then_Get unifiedData s = Some (E_OK, unifiedData).
End Vocabulary.

(** ** Prefix scans of the engine *)

(** A prefix scan selects, from all the entries of the engine, those whose
    key starts with the prefix. *)
Class KvStoreScanLaws (St : Type) {engine : KvStoreNbDelegate.t St} : Prop := {
  GetEntries_under (p : Key) (s : St) (e : Entry) :
    e ∈ (KvStoreNbDelegate.GetEntries p s).2 ↔
      p `prefix_of` Entry.key e ∧ e ∈ (KvStoreNbDelegate.GetEntries [] s).2
}.

(** ** Vocabulary of the properties of scans and summaries *)

Section MoreVocabulary.
Context {meta : UnifiedMeta} {codec : TLVUtil} {St : Type}
  {engine : KvStoreNbDelegate.t St}.

(** The key of an entry starts with [key]. *)
Definition under (key : string) (e : Entry) : Prop :=
  Key_of_string key `prefix_of` Entry.key e.

Global Instance under_dec key e : Decision (under key e).
Proof. unfold under. apply _. Defined.

(** Neither key starts with the other. *)
Definition apart (key1 key2 : string) : Prop :=
  ¬ Key_of_string key1 `prefix_of` Key_of_string key2 ∧
  ¬ Key_of_string key2 `prefix_of` Key_of_string key1.

Global Instance apart_dec key1 key2 : Decision (apart key1 key2).
Proof. unfold apart. apply _. Defined.

(** The slashes of a string. *)
Definition slashes (s : string) : Z := RuntimeStore.std_count s "/".

(** A summary as [GetSummary] leaves a new one: no negative entry, and the
    entries add up to the total. *)
Definition Summary_wf (summary0 : Summary) : Prop :=
  (∀ name size, summary summary0 !! name = Some size → 0 ≤ size) ∧
  map_total (summary summary0) = totalSize summary0.
End MoreVocabulary.

(** ** Sample data *)

(** One group key, records that encode and one that does not, and engines
    to run the store on. *)
Module Data.
Import Sample.

Definition key : string := "udmf://drag/app/g1".
Definition other_key : string := "udmf://drag/app/g2".
Definition last_key : string := "udmf://drag/app/g3".

Definition runtime : RuntimeBlock := mkRuntime key 5.
Definition other_runtime : RuntimeBlock := mkRuntime other_key 6.
Definition last_runtime : RuntimeBlock := mkRuntime last_key 7.
(** A creation time that does not fit the byte of the sample codec. *)
Definition late_runtime : RuntimeBlock := mkRuntime key 300.

Definition text_a : UnifiedRecord := OtherRecord 0%N "a" 10.
Definition text_b : UnifiedRecord := OtherRecord 0%N "b" 20.
Definition form_c : UnifiedRecord :=
  Form (SystemDefinedForm.mk "c" [] 7 "form" "bundle" "ability" "mod").
(** A size that does not fit the byte of the sample codec. *)
Definition big : UnifiedRecord := OtherRecord 0%N "big" 1000.

Definition data (runtime : RuntimeBlock) (records : list (option UnifiedRecord))
    : UnifiedData :=
  {| runtime_ := Some runtime; records_ := records |}.

(** The entries [Put] writes for a record and for a runtime block. *)
Definition record_entry (unifiedKey : string) (record : UnifiedRecord) : Entry :=
  entry_of unifiedKey record.
Definition runtime_entry (runtime : RuntimeBlock) : Entry :=
  Entry.mk (Key_of_string (Sample.key runtime)) (default [] (encode_runtime runtime)).

(** A record entry whose bytes the sample codec does not read. *)
Definition damaged_entry (unifiedKey : string) (record : UnifiedRecord) : Entry :=
  Entry.mk (member_key unifiedKey record) [].

(** Engines: with nothing in it; as [Put] of [text_b] under [key] left it;
    as [Put] of [form_c] and [text_a] left it; with the entry of [text_b]
    damaged; and three groups in an engine that takes batches of one entry
    only. *)
Definition empty : MemKv.t := MemKv.of_entries [] 8.
Definition older : MemKv.t :=
  MemKv.of_entries [record_entry key text_b; runtime_entry runtime] 8.
Definition stored : MemKv.t :=
  MemKv.of_entries
    [record_entry key form_c; record_entry key text_a; runtime_entry runtime] 8.
Definition damaged : MemKv.t :=
  MemKv.of_entries
    [record_entry key text_a; damaged_entry key text_b; runtime_entry runtime] 8.
Definition groups : MemKv.t :=
  MemKv.of_entries
    [runtime_entry runtime;
     record_entry other_key text_a; runtime_entry other_runtime;
     runtime_entry last_runtime] 1.
Definition groups_less_first : MemKv.t :=
  MemKv.of_entries
    [record_entry other_key text_a; runtime_entry other_runtime;
     runtime_entry last_runtime] 1.
End Data.

(** ** Sample data with more than one group *)

(** A group whose key starts with the key of another group, an entry that
    is not of the store, and engines that hold them. *)
Module Crowd.
Import Sample.

Definition long_key : string := "udmf://drag/app/g10".
Definition long_runtime : RuntimeBlock := mkRuntime long_key 8.

(** An entry outside the namespace of the store. *)
Definition foreign_entry : Entry := Entry.mk (Key_of_string "settings") [x01].

(** Engines: three groups and the foreign entry; the same without the
    entries under [Data.key]; with a record more under [Data.other_key];
    after [Data.key] was updated to the records b, a, and to b and the
    form c; and with the foreign entry only. *)
Definition crowded : MemKv.t :=
  MemKv.of_entries
    [Data.record_entry Data.key Data.text_a; Data.runtime_entry Data.runtime;
     Data.runtime_entry long_runtime; Data.runtime_entry Data.other_runtime;
     foreign_entry] 8.
Definition crowded_less_key : MemKv.t :=
  MemKv.of_entries [Data.runtime_entry Data.other_runtime; foreign_entry] 8.
Definition crowded_more : MemKv.t :=
  MemKv.of_entries
    [Data.record_entry Data.key Data.text_a; Data.runtime_entry Data.runtime;
     Data.runtime_entry long_runtime;
     Data.record_entry Data.other_key Data.text_b;
     Data.runtime_entry Data.other_runtime; foreign_entry] 8.
Definition updated : MemKv.t :=
  MemKv.of_entries
    [Data.record_entry Data.key Data.text_b; Data.record_entry Data.key Data.text_a;
     Data.runtime_entry Data.runtime; Data.runtime_entry Data.other_runtime;
     foreign_entry] 8.
Definition updated_to_form : MemKv.t :=
  MemKv.of_entries
    [Data.record_entry Data.key Data.text_b; Data.record_entry Data.key Data.form_c;
     Data.runtime_entry Data.runtime; Data.runtime_entry Data.other_runtime;
     foreign_entry] 8.
Definition foreign_only : MemKv.t := MemKv.of_entries [foreign_entry] 8.

(** A summary that already counts five bytes of text. *)
Definition five_of_text : Summary := {| summary := {[ "Text" := 5 ]}; totalSize := 5 |}.
End Crowd.

(** ** Tactics for the sample runs *)

(** Every member of a list given in full. *)
Ltac members H :=
  repeat (apply elem_of_cons in H as [H|H]); [..|by apply elem_of_nil in H];
  simplify_eq.

(** A closed equation, by evaluation. *)
Ltac computed := vm_compute; reflexivity.

(** A closed decidable proposition, by evaluation. *)
Ltac decided := apply (bool_decide_unpack _); vm_compute; exact I.

(** * Properties *)

(** ** Lists *)

Section ListFacts.
Context {A B : Type}.

Lemma Permutation_fmap_inv (f : A → B) (l1 : list B) (l2 : list A) :
  l1 ≡ₚ f <$> l2 → ∃ l3, l1 = f <$> l3 ∧ l2 ≡ₚ l3.
Proof. apply Permutation_map_inv. Qed.

Lemma NoDup_fmap_finer (f : A → B) {C} (g : A → C) (l : list A) :
  (∀ x y, g x = g y → f x = f y) → NoDup (f <$> l) → NoDup (g <$> l).
Proof.
  intros Hfiner. induction l as [|x l IH]; csimpl; [constructor|].
  rewrite !NoDup_cons. intros [Hnotin Hnodup]. split; [|by apply IH].
  intros (y & Hxy & Hy)%list_elem_of_fmap. apply Hnotin.
  rewrite (Hfiner _ _ Hxy). by apply list_elem_of_fmap_2.
Qed.

Lemma StronglySorted_NoDup (R : relation A) `{!Irreflexive R} (l : list A) :
  StronglySorted R l → NoDup l.
Proof.
  induction 1 as [|x l _ IH Hall]; constructor; [|done].
  intros Hin. rewrite Forall_forall in Hall.
  by apply (irreflexivity R x), Hall.
Qed.

Lemma omap_id_fmap_Some (l : list A) : omap id (Some <$> l) = l.
Proof. induction l as [|x l IH]; csimpl; [done|]. by rewrite IH. Qed.
End ListFacts.

(** ** Keys *)

Section KeyFacts.
Implicit Types (p k : Key).

Lemma Key_of_string_app (a b : string) :
  Key_of_string (a +:+ b) = Key_of_string a ++ Key_of_string b.
Proof.
  unfold Key_of_string, String.list_byte_of_string.
  induction a as [|c a IH]; simpl; [done|]. by rewrite IH.
Qed.

Lemma string_of_Key_of_string (s : string) : string_of_Key (Key_of_string s) = s.
Proof. apply String.string_of_list_byte_of_string. Qed.

Global Instance Key_of_string_inj : Inj (=) (=) Key_of_string.
Proof.
  intros a b Hab. rewrite <-(string_of_Key_of_string a), Hab.
  apply string_of_Key_of_string.
Qed.

Lemma lexico_cons (x : byte) k1 k2 : lexico (x :: k1) (x :: k2) ↔ lexico k1 k2.
Proof.
  change (lexico (x :: k1) (x :: k2)) with (lexico (x, k1) (x, k2)).
  unfold lexico at 1, prod_lexico. simpl. split.
  - intros [Hx|[_ Hk]]; [|done]. by apply (irreflexivity (@lexico byte _)) in Hx.
  - intros Hk. by right.
Qed.

Lemma lexico_app p k1 k2 : lexico (p ++ k1) (p ++ k2) ↔ lexico k1 k2.
Proof. induction p as [|x p IH]; simpl; [done|]. by rewrite lexico_cons. Qed.

Lemma lexico_prefix p (x : byte) k : lexico p (p ++ x :: k).
Proof.
  rewrite <-(app_nil_r p) at 1. apply lexico_app. done.
Qed.
End KeyFacts.

(** ** Batches and sorted scans *)

Section BatchFacts.
Lemma batch_value_None entries k :
  batch_value entries k = None ↔ k ∉ Entry.key <$> entries.
Proof.
  induction entries as [|e rest IH]; simpl.
  - split; [intros _; apply not_elem_of_nil|done].
  - rewrite not_elem_of_cons, <-IH.
    destruct (batch_value rest k); [intuition congruence|].
    case_decide; intuition congruence.
Qed.

Lemma batch_value_Some entries k v :
  NoDup (Entry.key <$> entries) →
  batch_value entries k = Some v ↔ Entry.mk k v ∈ entries.
Proof.
  induction entries as [|e rest IH]; simpl; intros Hnodup.
  - split; [done|]. by intros ?%elem_of_nil.
  - apply NoDup_cons in Hnodup as [Hnotin Hnodup].
    specialize (IH Hnodup). rewrite elem_of_cons.
    destruct (batch_value rest k) as [v'|] eqn:Hrest.
    + split; [intros [= ->]; right; by apply IH|].
      intros [<-|Hv]; [|by apply IH]. simpl in Hnotin.
      assert (batch_value rest k ≠ None) as Hne by congruence.
      rewrite batch_value_None in Hne. by destruct Hne.
    + case_decide as Hk.
      * split; [intros [= <-]; left; destruct e; simpl in *; congruence|].
        intros [<-|Hv]; [done|]. apply IH in Hv. congruence.
      * split; [done|]. intros [<-|Hv]; [by destruct Hk|]. apply IH in Hv. congruence.
Qed.

Lemma sorted_head (entries : list Entry) (e : Entry) :
  StronglySorted lexico (Entry.key <$> entries) →
  e ∈ entries →
  (∀ e', e' ∈ entries → e' ≠ e → lexico (Entry.key e) (Entry.key e')) →
  ∃ rest, entries = e :: rest.
Proof.
  intros Hsorted Hin Hleast. destruct entries as [|e0 rest]; [by apply elem_of_nil in Hin|].
  destruct (decide (e0 = e)) as [->|Hne]; [by exists rest|].
  apply elem_of_cons in Hin as [->|Hin]; [done|].
  simpl in Hsorted. apply StronglySorted_inv in Hsorted as [_ Hall].
  rewrite Forall_fmap, Forall_forall in Hall. specialize (Hall e Hin). simpl in Hall.
  assert (lexico (Entry.key e) (Entry.key e0)) as Hgt.
  { apply Hleast; [by left|done]. }
  by destruct (strict_anti_symm (R := @lexico Key _) _ _ Hall Hgt).
Qed.
End BatchFacts.

(** ** The engine in memory meets the expectations *)

Section MemKvFacts.
Implicit Types (m : gmap Key Value) (e : Entry) (p k : Key).

Lemma Key_le_cases k1 k2 : ¬ lexico k2 k1 ↔ lexico k1 k2 ∨ k1 = k2.
Proof.
  split.
  - intros Hnot. destruct (trichotomy lexico k1 k2) as [?|[?|?]]; tauto.
  - intros [Hlt| ->] Hgt.
    + by eapply (strict_anti_symm (R := @lexico Key _)).
    + by eapply (irreflexivity (@lexico Key _)).
Qed.

Global Instance Entry_le_trans : Transitive MemKv.Entry_le.
Proof.
  intros e1 e2 e3. unfold MemKv.Entry_le. rewrite !Key_le_cases.
  intros [H12|H12] [H23|H23].
  - left. by etrans.
  - left. congruence.
  - left. congruence.
  - right. congruence.
Qed.

Global Instance Entry_le_total : Total MemKv.Entry_le.
Proof.
  intros e1 e2. unfold MemKv.Entry_le.
  destruct (trichotomy lexico (Entry.key e1) (Entry.key e2)) as [Hlt|[Heq|Hgt]].
  - left. intros Hgt. by eapply (strict_anti_symm (R := @lexico Key _)).
  - left. rewrite Heq. apply (irreflexivity (@lexico Key _)).
  - right. intros Hlt. by eapply (strict_anti_symm (R := @lexico Key _)).
Qed.

Lemma elem_of_entries_of m e :
  e ∈ MemKv.entries_of m ↔ m !! Entry.key e = Some (Entry.value e).
Proof.
  unfold MemKv.entries_of. rewrite list_elem_of_fmap. split.
  - intros ([k v] & -> & Hin). simpl. by apply elem_of_map_to_list.
  - intros Hlook. exists (Entry.key e, Entry.value e). split; [by destruct e|].
    by apply elem_of_map_to_list.
Qed.

Lemma elem_of_scan p m e :
  e ∈ MemKv.scan p m ↔
    p `prefix_of` Entry.key e ∧ m !! Entry.key e = Some (Entry.value e).
Proof.
  unfold MemKv.scan. rewrite merge_sort_Permutation, list_elem_of_filter.
  by rewrite elem_of_entries_of.
Qed.

Lemma entries_of_keys m : NoDup (Entry.key <$> MemKv.entries_of m).
Proof.
  unfold MemKv.entries_of. rewrite <-list_fmap_compose.
  apply (NoDup_fst_map_to_list m).
Qed.

Lemma scan_keys p m : NoDup (Entry.key <$> MemKv.scan p m).
Proof.
  unfold MemKv.scan. rewrite merge_sort_Permutation.
  eapply sublist_NoDup; [apply (entries_of_keys m)|].
  apply fmap_sublist, sublist_filter.
Qed.

Lemma sorted_keys (l : list Entry) :
  StronglySorted MemKv.Entry_le l → NoDup (Entry.key <$> l) →
  StronglySorted lexico (Entry.key <$> l).
Proof.
  induction 1 as [|e l Hl IH Hall]; simpl; [constructor|].
  intros Hnodup. apply NoDup_cons in Hnodup as [Hnotin Hnodup].
  constructor; [by apply IH|].
  apply Forall_fmap, Forall_forall. intros e' Hin. simpl.
  rewrite Forall_forall in Hall. specialize (Hall e' Hin).
  apply Key_le_cases in Hall as [Hlt|Heq]; [done|].
  destruct Hnotin. rewrite Heq. by apply list_elem_of_fmap_2.
Qed.

Lemma scan_sorted p m : StronglySorted lexico (Entry.key <$> MemKv.scan p m).
Proof.
  apply sorted_keys; [|apply scan_keys].
  apply StronglySorted_merge_sort; apply _.
Qed.

Lemma GetEntries_scan_of p (s : MemKv.t) :
  (MemKv.GetEntries p s).2 = MemKv.scan p (MemKv.store s).
Proof. unfold MemKv.GetEntries. by destruct (MemKv.scan p (MemKv.store s)). Qed.

Lemma lookup_put_entries entries m k :
  foldl (λ m e, <[Entry.key e := Entry.value e]> m) m entries !! k =
    match batch_value entries k with
    | Some v => Some v
    | None => m !! k
    end.
Proof.
  revert m. induction entries as [|e rest IH]; intros m; simpl; [done|].
  rewrite IH. destruct (batch_value rest k); [done|].
  rewrite lookup_insert. by case_decide.
Qed.

Lemma lookup_delete_keys keys m k :
  foldl (λ m k, delete k m) m keys !! k = if decide (k ∈ keys) then None else m !! k.
Proof.
  revert m. induction keys as [|k' rest IH]; intros m; cbn [foldl].
  - case_decide as Hin; [by apply elem_of_nil in Hin|done].
  - rewrite IH, lookup_delete.
    repeat case_decide; try done; subst; rewrite elem_of_cons in *; intuition congruence.
Qed.

Global Instance MemKv_laws : KvStoreLaws MemKv.t.
Proof.
  split.
  - intros p s. simpl. rewrite GetEntries_scan_of. apply scan_sorted.
  - intros entries s s' p e. simpl. unfold MemKv.PutBatch.
    case_decide; [|done]. intros [= <-].
    rewrite !GetEntries_scan_of, !elem_of_scan. simpl.
    rewrite lookup_put_entries.
    destruct (batch_value entries (Entry.key e)) as [v|]; intuition congruence.
  - intros keys s s' p e. simpl. unfold MemKv.DeleteBatch.
    case_decide; [|done]. intros [= <-].
    rewrite !GetEntries_scan_of, !elem_of_scan. simpl.
    rewrite lookup_delete_keys. case_decide; intuition congruence.
Qed.
End MemKvFacts.

(** ** Put *)

Section PutFacts.
Context {meta : UnifiedMeta} {codec : TLVUtil} {St : Type}
  {engine : KvStoreNbDelegate.t St}.

Lemma Put_records_fails unifiedKey records entries :
  (∃ record, Some record ∈ records ∧ Writing_record record = None) →
  RuntimeStore.Put_records unifiedKey records entries = inl E_INVALID_PARAMETERS.
Proof.
  intros (record & Hin & Hw). revert entries.
  induction records as [|[r|] rest IH]; intros entries; simpl.
  - by apply elem_of_nil in Hin.
  - destruct (Writing_record r) as [bytes|] eqn:E; [|done].
    apply IH. apply elem_of_cons in Hin as [Heq|Hin]; [|done].
    congruence.
  - apply IH. apply elem_of_cons in Hin as [Heq|Hin]; [done|done].
Qed.

Lemma Put_records_succeeds unifiedKey records entries :
  (∀ record, Some record ∈ records → is_Some (Writing_record record)) →
  ∃ new, RuntimeStore.Put_records unifiedKey records entries = inr (entries ++ new) ∧
         Forall2 (is_record_entry unifiedKey) (non_null records) new.
Proof.
  revert entries. induction records as [|[r|] rest IH]; intros entries Hall; simpl.
  - exists []. by rewrite app_nil_r.
  - destruct (Hall r) as [bytes Hb]; [by left|]. rewrite Hb.
    destruct (IH (entries ++ [Entry.mk (member_key unifiedKey r) bytes]))
      as (new & Hput & Hnew).
    { intros record Hin. apply Hall. by right. }
    exists (Entry.mk (member_key unifiedKey r) bytes :: new). split.
    + unfold member_key in Hput. rewrite Hput. by rewrite <-app_assoc.
    + constructor; [done|]. exact Hnew.
  - apply IH. intros record Hin. apply Hall. by right.
Qed.

Lemma Put_records_non_null unifiedKey records entries :
  RuntimeStore.Put_records unifiedKey (Some <$> non_null records) entries =
  RuntimeStore.Put_records unifiedKey records entries.
Proof.
  revert entries. induction records as [|[r|] rest IH]; intros entries; simpl; [done| |done].
  destruct (Writing_record r); [|done]. apply IH.
Qed.

Lemma Put_writes_batch unifiedData runtime runtimeBytes s :
  runtime_ unifiedData = Some runtime →
  (∀ record, Some record ∈ records_ unifiedData → is_Some (Writing_record record)) →
  Writing_runtime runtime = Some runtimeBytes →
  let unifiedKey := GetUnifiedKey (Runtime_key runtime) in
  ∃ entries,
    Forall2 (is_record_entry unifiedKey) (non_null (records_ unifiedData)) entries ∧
    RuntimeStore.Put unifiedData s =
      Some (of_DBStatus (KvStoreNbDelegate.PutBatch
              (entries ++ [Entry.mk (Key_of_string unifiedKey) runtimeBytes]) s)).
Proof.
  intros Hrt Hall Hw unifiedKey.
  destruct (Put_records_succeeds unifiedKey (records_ unifiedData) [] Hall)
    as (entries & Hput & Hentries).
  exists entries. split; [done|].
  unfold RuntimeStore.Put. rewrite Hrt. simpl. fold unifiedKey.
  rewrite Hput, Hw. simpl.
  destruct (KvStoreNbDelegate.PutBatch _ s) as [status s'].
  unfold of_DBStatus. simpl. by repeat case_decide.
Qed.

(** C2: [Put] returns [E_INVALID_PARAMETERS] when the codec fails on some
    record, and leaves the engine as it was; when every record encodes
    and the codec fails on the runtime block, it returns [E_UNKNOWN], the
    engine again as it was; when everything encodes, the batch of the
    record entries and the runtime entry goes to [PutBatch], and [Put]
    returns [E_DB_ERROR] when the engine does not answer [OK], else
    [E_OK], with the engine as [PutBatch] left it. *)
Theorem Put_status (unifiedData : UnifiedData) (runtime : Runtime) (s : St) :
  runtime_ unifiedData = Some runtime →
  let unifiedKey := GetUnifiedKey (Runtime_key runtime) in
  ((∃ record, Some record ∈ records_ unifiedData ∧ Writing_record record = None) →
     RuntimeStore.Put unifiedData s = Some (E_INVALID_PARAMETERS, s)) ∧
  ((∀ record, Some record ∈ records_ unifiedData → is_Some (Writing_record record)) →
     (Writing_runtime runtime = None →
        RuntimeStore.Put unifiedData s = Some (E_UNKNOWN, s)) ∧
     (∀ runtimeBytes, Writing_runtime runtime = Some runtimeBytes →
        ∃ entries,
          Forall2 (is_record_entry unifiedKey) (non_null (records_ unifiedData)) entries ∧
          ∀ status s',
            KvStoreNbDelegate.PutBatch
              (entries ++ [Entry.mk (Key_of_string unifiedKey) runtimeBytes]) s
              = (status, s') →
            (status ≠ DBStatus.OK →
               RuntimeStore.Put unifiedData s = Some (E_DB_ERROR, s')) ∧
            (status = DBStatus.OK →
               RuntimeStore.Put unifiedData s = Some (E_OK, s')))).
Proof.
  intros Hrt unifiedKey. split; [|intros Hall; split].
  - intros Hfail. unfold RuntimeStore.Put. rewrite Hrt. simpl.
    by rewrite (Put_records_fails _ _ [] Hfail).
  - intros Hw. unfold RuntimeStore.Put. rewrite Hrt. simpl.
    destruct (Put_records_succeeds (GetUnifiedKey (Runtime_key runtime))
                (records_ unifiedData) [] Hall) as (entries & -> & _).
    by rewrite Hw.
  - intros runtimeBytes Hw.
    destruct (Put_writes_batch unifiedData runtime runtimeBytes s Hrt Hall Hw)
      as (entries & Hentries & Hput).
    exists entries. split; [done|]. intros status s' Hbatch.
    fold unifiedKey in Hput. rewrite Hbatch in Hput. rewrite Hput.
    unfold of_DBStatus. simpl. split; intros Hs; by case_decide.
Qed.

(** C9: null records are skipped.  [Put] does on a record sequence what
    it does on the sequence without its null pointers, whether it succeeds
    or fails; and when the records that are not null and the runtime block
    encode, the batch given to [PutBatch] is one entry for each record that
    is not null, in order, followed by the runtime entry. *)
Theorem Put_skips_null_records (unifiedData : UnifiedData) (s : St) :
  RuntimeStore.Put unifiedData s =
    RuntimeStore.Put
      {| runtime_ := runtime_ unifiedData;
         records_ := Some <$> non_null (records_ unifiedData) |} s ∧
  ∀ runtime runtimeBytes,
    runtime_ unifiedData = Some runtime →
    (∀ record, Some record ∈ records_ unifiedData → is_Some (Writing_record record)) →
    Writing_runtime runtime = Some runtimeBytes →
    let unifiedKey := GetUnifiedKey (Runtime_key runtime) in
    ∃ entries,
      Forall2 (is_record_entry unifiedKey) (non_null (records_ unifiedData)) entries ∧
      length entries = length (non_null (records_ unifiedData)) ∧
      RuntimeStore.Put unifiedData s =
        Some (of_DBStatus (KvStoreNbDelegate.PutBatch
                (entries ++ [Entry.mk (Key_of_string unifiedKey) runtimeBytes]) s)).
Proof.
  split.
  - unfold RuntimeStore.Put. simpl. destruct (runtime_ unifiedData); [simpl|done].
    by rewrite Put_records_non_null.
  - intros runtime runtimeBytes Hrt Hall Hw unifiedKey.
    destruct (Put_writes_batch unifiedData runtime runtimeBytes s Hrt Hall Hw)
      as (entries & Hentries & Hput).
    exists entries. split; [done|]. split; [|done].
    symmetry. by eapply Forall2_length.
Qed.
End PutFacts.

(** ** Get *)

Section GetFacts.
Context {meta : UnifiedMeta} {codec : TLVUtil} {St : Type}
  {engine : KvStoreNbDelegate.t St}.

Lemma Get_entries_decoded key entries unifiedData unifiedData' :
  decode_entries key entries unifiedData = Some unifiedData' →
  RuntimeStore.Get_entries key entries unifiedData = (E_OK, unifiedData').
Proof.
  revert unifiedData. induction entries as [|entry rest IH]; intros unifiedData; simpl.
  - by intros [= ->].
  - unfold decode_entry. case_decide.
    + destruct (Reading_runtime _); [simpl; apply IH|done].
    + destruct (Reading_record _); [simpl; apply IH|done].
Qed.

Lemma Get_entries_stops key done entry rest unifiedData unifiedData' :
  decode_entries key done unifiedData = Some unifiedData' →
  decode_entry key entry unifiedData' = None →
  RuntimeStore.Get_entries key (done ++ entry :: rest) unifiedData
    = (E_UNKNOWN, unifiedData').
Proof.
  revert unifiedData. induction done as [|e done IH]; intros unifiedData; simpl.
  - intros [= ->]. unfold decode_entry. case_decide.
    + by destruct (Reading_runtime _).
    + by destruct (Reading_record _).
  - unfold decode_entry at 1. case_decide.
    + destruct (Reading_runtime _); [simpl; apply IH|done].
    + destruct (Reading_record _); [simpl; apply IH|done].
Qed.

Lemma Get_as_Get_entries key unifiedData s :
  RuntimeStore.Get key unifiedData s =
    RuntimeStore.Get_entries key (RuntimeStore.GetEntries key s) unifiedData.
Proof. unfold RuntimeStore.Get. by destruct (RuntimeStore.GetEntries key s). Qed.

(** C3: [Get] returns [E_OK] and leaves the output as it was when the
    scan under the key returns no entry.  When the scan returns entries
    of which the first ones decode (the entry under the exact key as the
    runtime block, the others as records) and the next one does not,
    [Get] returns [E_UNKNOWN] at once, the output holding what was
    decoded before, in scan order.  When all of them decode, [Get]
    returns [E_OK] with all of them in the output. *)
Theorem Get_status (key : string) (unifiedData : UnifiedData) (s : St) :
  (RuntimeStore.GetEntries key s = [] →
     RuntimeStore.Get key unifiedData s = (E_OK, unifiedData)) ∧
  (∀ done entry rest unifiedData',
     RuntimeStore.GetEntries key s = done ++ entry :: rest →
     decode_entries key done unifiedData = Some unifiedData' →
     decode_entry key entry unifiedData' = None →
     RuntimeStore.Get key unifiedData s = (E_UNKNOWN, unifiedData')) ∧
  (∀ unifiedData',
     decode_entries key (RuntimeStore.GetEntries key s) unifiedData = Some unifiedData' →
     RuntimeStore.Get key unifiedData s = (E_OK, unifiedData')).
Proof.
  split; [|split].
  - intros Hnil. unfold RuntimeStore.Get. by rewrite Hnil.
  - intros done entry rest unifiedData' Hscan Hdone Hentry.
    rewrite Get_as_Get_entries, Hscan. by apply Get_entries_stops.
  - intros unifiedData' Hall. rewrite Get_as_Get_entries. by apply Get_entries_decoded.
Qed.
End GetFacts.

(** ** Delete *)

Section DeleteFacts.
Context {meta : UnifiedMeta} {codec : TLVUtil} {St : Type}
  {engine : KvStoreNbDelegate.t St} {laws : KvStoreLaws St}.

Lemma GetEntries_scan dataPrefix (s : St) :
  RuntimeStore.GetEntries dataPrefix s =
    (KvStoreNbDelegate.GetEntries (Key_of_string dataPrefix) s).2.
Proof.
  unfold RuntimeStore.GetEntries.
  by destruct (KvStoreNbDelegate.GetEntries (Key_of_string dataPrefix) s).
Qed.

Lemma Delete_OK_scan key (s s' : St) :
  RuntimeStore.Delete key s = (E_OK, s') → RuntimeStore.GetEntries key s' = [].
Proof.
  unfold RuntimeStore.Delete.
  destruct (RuntimeStore.GetEntries key s) as [|entry rest] eqn:Hscan.
  - by intros [= <-].
  - destruct (KvStoreNbDelegate.DeleteBatch _ s) as [status s1] eqn:Hdel.
    case_decide as Hs; [done|]. intros [= <-].
    subst status.
    apply elem_of_nil_inv. intros e He.
    rewrite GetEntries_scan in He.
    apply (DeleteBatch_OK _ _ _ _ _ Hdel) in He as [He Hkey].
    apply Hkey. rewrite <-GetEntries_scan, Hscan in He.
    by apply list_elem_of_fmap_2.
Qed.

(** C6: after [Delete(key)] returned [E_OK], [Get(key)] on the engine
    it left returns [E_OK] and leaves the output as it was; a new
    [UnifiedData] stays without runtime block and without records.  The
    engine is one that meets [KvStoreLaws]. *)
Theorem Get_after_Delete (key : string) (unifiedData : UnifiedData) (s s' : St) :
  RuntimeStore.Delete key s = (E_OK, s') →
  RuntimeStore.Get key unifiedData s' = (E_OK, unifiedData) ∧
  RuntimeStore.Get key UnifiedData_new s'
    = (E_OK, {| runtime_ := None; records_ := [] |}).
Proof.
  intros Hdel. pose proof (Delete_OK_scan key s s' Hdel) as Hscan.
  unfold RuntimeStore.Get. by rewrite Hscan.
Qed.
End DeleteFacts.

(** ** DeleteBatch *)

Section DeleteBatchFacts.
Context {meta : UnifiedMeta} {codec : TLVUtil} {St : Type}
  {engine : KvStoreNbDelegate.t St}.

Lemma DeleteBatch_keys_not_OK timeoutKeys status (s : St) :
  status ≠ E_OK → RuntimeStore.DeleteBatch_keys timeoutKeys status s = (status, s).
Proof.
  intros Hs. induction timeoutKeys as [|k rest IH]; simpl; [done|].
  by rewrite decide_False.
Qed.

Lemma DeleteBatch_as_keys timeoutKeys (s : St) :
  RuntimeStore.DeleteBatch timeoutKeys s = RuntimeStore.DeleteBatch_keys timeoutKeys E_OK s.
Proof. by destruct timeoutKeys. Qed.

Lemma DeleteBatch_keys_OK timeoutKeys rest (s s1 : St) :
  Deletes_OK timeoutKeys s = Some s1 →
  RuntimeStore.DeleteBatch_keys (timeoutKeys ++ rest) E_OK s
    = RuntimeStore.DeleteBatch_keys rest E_OK s1.
Proof.
  revert s. induction timeoutKeys as [|k keys IH]; intros s; simpl.
  - by intros [= ->].
  - destruct (RuntimeStore.Delete k s) as [status s']. case_decide; [|done].
    subst status. apply IH.
Qed.

(** C5: [DeleteBatch] returns [E_OK] on the empty list.  On a list
    whose first keys are deleted with [E_OK] and whose next key is not,
    it returns the status of that key, with the engine as that [Delete]
    left it, whatever keys follow: no later key is deleted.  When every
    [Delete] returns [E_OK] it returns [E_OK].  Every list is of one of
    the two forms. *)
Theorem DeleteBatch_first_failure (s : St) :
  RuntimeStore.DeleteBatch [] s = (E_OK, s) ∧
  (∀ done key rest s1 status s2,
     Deletes_OK done s = Some s1 →
     RuntimeStore.Delete key s1 = (status, s2) →
     status ≠ E_OK →
     RuntimeStore.DeleteBatch (done ++ key :: rest) s = (status, s2)) ∧
  (∀ timeoutKeys s1,
     Deletes_OK timeoutKeys s = Some s1 →
     RuntimeStore.DeleteBatch timeoutKeys s = (E_OK, s1)) ∧
  (∀ timeoutKeys,
     is_Some (Deletes_OK timeoutKeys s) ∨
     ∃ done key rest s1 status s2,
       timeoutKeys = done ++ key :: rest ∧ Deletes_OK done s = Some s1 ∧
       RuntimeStore.Delete key s1 = (status, s2) ∧ status ≠ E_OK).
Proof.
  split; [done|]. split; [|split].
  - intros done key rest s1 status s2 Hdone Hdel Hs.
    rewrite DeleteBatch_as_keys, (DeleteBatch_keys_OK _ _ _ _ Hdone). simpl.
    rewrite Hdel. by apply DeleteBatch_keys_not_OK.
  - intros timeoutKeys s1 Hall.
    rewrite DeleteBatch_as_keys, <-(app_nil_r timeoutKeys).
    by rewrite (DeleteBatch_keys_OK _ _ _ _ Hall).
  - intros timeoutKeys. revert s.
    induction timeoutKeys as [|k keys IH]; intros s; simpl; [left; by eexists|].
    destruct (RuntimeStore.Delete k s) as [status s'] eqn:Hdel. case_decide.
    + subst status.
      destruct (IH s')
        as [Hok|(done & key & rest & s1 & st & s2 & -> & Hd & Hk & Hs)].
      * by left.
      * right. exists (k :: done), key, rest, s1, st, s2. simpl. rewrite Hdel.
        by rewrite decide_True.
    + right. exists [], k, keys, s, status, s'. done.
Qed.
End DeleteBatchFacts.

(** ** Update *)

Section UpdateFacts.
Context {meta : UnifiedMeta} {codec : TLVUtil} {St : Type}
  {engine : KvStoreNbDelegate.t St}.

Lemma Put_is_Some unifiedData runtime (s : St) :
  runtime_ unifiedData = Some runtime → is_Some (RuntimeStore.Put unifiedData s).
Proof.
  intros Hrt. unfold RuntimeStore.Put. rewrite Hrt. simpl.
  destruct (RuntimeStore.Put_records _ _ _); [by eexists|].
  destruct (Writing_runtime runtime); [|by eexists].
  destruct (KvStoreNbDelegate.PutBatch _ s). case_decide; by eexists.
Qed.

(** C4, amended: [Update(data)] leaves the engine as
    [Delete(data.Runtime.key)] followed, when it returned [E_OK], by
    [Put(data)] leaves it, and returns [E_OK] when that sequence ends
    with [E_OK] and [E_DB_ERROR] when it ends with any other status. *)
Theorem Update_as_Delete_and_then_Put (unifiedData : UnifiedData) (runtime : Runtime)
    (s : St) :
  runtime_ unifiedData = Some runtime →
  ∃ status s',
    Delete_and_then_Put unifiedData s = Some (status, s') ∧
    RuntimeStore.Update unifiedData s = Some (as_DbError status, s').
Proof.
  intros Hrt. unfold Delete_and_then_Put, RuntimeStore.Update. rewrite Hrt. simpl.
  destruct (RuntimeStore.Delete _ s) as [status s1].
  destruct (decide (status = E_OK)) as [->|Hne].
  - rewrite decide_False by (by intros ?).
    destruct (Put_is_Some unifiedData runtime s1 Hrt) as [[status s2] Hput].
    rewrite Hput. simpl. exists status, s2. split; [done|].
    unfold as_DbError. by repeat case_decide.
  - rewrite decide_True by done. exists status, s1. split; [done|].
    unfold as_DbError. by rewrite decide_False.
Qed.

(** C10: [Update] returns [E_OK] or [E_DB_ERROR] and nothing else:
    [E_DB_ERROR] when the inner [Delete] does not return [E_OK], and when
    the inner [Put] does not, whatever status [Put] itself returned
    ([E_INVALID_PARAMETERS] and [E_UNKNOWN] included); [E_OK] when both
    return [E_OK]. *)
Theorem Update_status (unifiedData : UnifiedData) (runtime : Runtime) (s : St) :
  runtime_ unifiedData = Some runtime →
  let key := UnifiedKey_key (Runtime_key runtime) in
  (∃ status s', RuntimeStore.Update unifiedData s = Some (status, s') ∧
                (status = E_OK ∨ status = E_DB_ERROR)) ∧
  (∀ status s1, RuntimeStore.Delete key s = (status, s1) → status ≠ E_OK →
     RuntimeStore.Update unifiedData s = Some (E_DB_ERROR, s1)) ∧
  (∀ s1 status s2, RuntimeStore.Delete key s = (E_OK, s1) →
     RuntimeStore.Put unifiedData s1 = Some (status, s2) → status ≠ E_OK →
     RuntimeStore.Update unifiedData s = Some (E_DB_ERROR, s2)) ∧
  (∀ s1 s2, RuntimeStore.Delete key s = (E_OK, s1) →
     RuntimeStore.Put unifiedData s1 = Some (E_OK, s2) →
     RuntimeStore.Update unifiedData s = Some (E_OK, s2)).
Proof.
  intros Hrt key. split; [|split; [|split]].
  - unfold RuntimeStore.Update. rewrite Hrt. simpl. fold key.
    destruct (RuntimeStore.Delete key s) as [status s1].
    case_decide; [by exists E_DB_ERROR, s1; auto|].
    destruct (Put_is_Some unifiedData runtime s1 Hrt) as [[status2 s2] Hput].
    rewrite Hput. simpl. case_decide; [exists E_DB_ERROR, s2|exists E_OK, s2]; auto.
  - intros status s1 Hdel Hs. unfold RuntimeStore.Update. rewrite Hrt. simpl.
    fold key. rewrite Hdel. by rewrite decide_True.
  - intros s1 status s2 Hdel Hput Hs. unfold RuntimeStore.Update. rewrite Hrt. simpl.
    fold key. rewrite Hdel. rewrite decide_False by (by intros ?).
    rewrite Hput. simpl. by repeat case_decide.
  - intros s1 s2 Hdel Hput. unfold RuntimeStore.Update. rewrite Hrt. simpl.
    fold key. rewrite Hdel. rewrite decide_False by (by intros ?).
    rewrite Hput. simpl. by repeat case_decide.
Qed.
End UpdateFacts.

(** ** GetDatas *)

Section GetDatasFacts.
Context {meta : UnifiedMeta} {codec : TLVUtil} {St : Type}
  {engine : KvStoreNbDelegate.t St}.

Lemma GetDatas_entries_selects entries (s : St) unifiedDatas :
  RuntimeStore.GetDatas_entries entries s unifiedDatas =
    unifiedDatas ++
    ((λ entry, (RuntimeStore.Get (string_of_Key (Entry.key entry)) UnifiedData_new s).2)
       <$> filter (λ entry, is_group_key (Entry.key entry)) entries).
Proof.
  revert unifiedDatas. induction entries as [|entry rest IH]; intros unifiedDatas; simpl.
  - by rewrite app_nil_r.
  - rewrite filter_cons. unfold is_group_key at 1. case_decide.
    + destruct (RuntimeStore.Get _ UnifiedData_new s) as [status data] eqn:Hget.
      rewrite IH, <-app_assoc. simpl. by rewrite Hget.
    + apply IH.
Qed.

(** C7: [GetDatas] selects, from the entries scanned under the prefix
    and in their order, exactly those whose key has four slashes; an
    entry whose key has five is never selected; and it returns, for each
    selected key, what [Get] on that key left in a new [UnifiedData],
    whatever status [Get] returned. *)
Theorem GetDatas_selects_group_keys (dataPrefix : string) (s : St) :
  let selected :=
    filter (λ entry, is_group_key (Entry.key entry))
           (RuntimeStore.GetEntries dataPrefix s) in
  RuntimeStore.GetDatas dataPrefix s =
    (λ entry, (RuntimeStore.Get (string_of_Key (Entry.key entry)) UnifiedData_new s).2)
      <$> selected ∧
  (∀ entry, entry ∈ selected ↔
     entry ∈ RuntimeStore.GetEntries dataPrefix s ∧ is_group_key (Entry.key entry)) ∧
  (∀ entry, is_member_key (Entry.key entry) → entry ∉ selected).
Proof.
  intros selected. split; [|split].
  - unfold RuntimeStore.GetDatas, selected.
    destruct (RuntimeStore.GetEntries dataPrefix s) as [|entry rest] eqn:Hscan; [done|].
    by rewrite GetDatas_entries_selects.
  - intros entry. unfold selected. rewrite list_elem_of_filter. tauto.
  - intros entry Hmember. unfold selected. rewrite list_elem_of_filter.
    intros [Hgroup _]. unfold is_member_key, is_group_key in *. lia.
Qed.
End GetDatasFacts.

(** ** GetSummary *)

Lemma to_int64_id (z : Z) : 0 ≤ z ≤ INT64_MAX → to_int64 z = z.
Proof.
  unfold to_int64, INT64_MAX. intros Hz.
  rewrite Z.mod_small; lia.
Qed.

Section MapTotal.
Lemma pairs_total_perm (l1 l2 : list (string * Z)) :
  l1 ≡ₚ l2 →
  foldr (λ kv n, kv.2 + n) 0 l1 = foldr (λ kv n, kv.2 + n) 0 l2.
Proof. induction 1; simpl; lia. Qed.

Lemma map_total_empty : map_total ∅ = 0.
Proof. unfold map_total. by rewrite map_to_list_empty. Qed.

Lemma map_total_insert_None (m : gmap string Z) k v :
  m !! k = None → map_total (<[k := v]> m) = v + map_total m.
Proof.
  intros Hk. unfold map_total.
  by rewrite (pairs_total_perm _ _ (map_to_list_insert m k v Hk)).
Qed.

Lemma map_total_delete (m : gmap string Z) k v :
  m !! k = Some v → map_total m = v + map_total (delete k m).
Proof.
  intros Hk. unfold map_total.
  by rewrite <-(pairs_total_perm _ _ (map_to_list_delete m k v Hk)).
Qed.

Lemma map_total_insert_Some (m : gmap string Z) k v old :
  m !! k = Some old → map_total (<[k := v]> m) = v - old + map_total m.
Proof.
  intros Hk. rewrite (map_total_delete m k old Hk), <-insert_delete_eq.
  rewrite map_total_insert_None by apply lookup_delete_eq. lia.
Qed.

Lemma map_total_nonneg (m : gmap string Z) :
  (∀ k v, m !! k = Some v → 0 ≤ v) → 0 ≤ map_total m.
Proof.
  induction m as [|k v m Hk _ IH] using map_first_key_ind; intros Hpos.
  - by rewrite map_total_empty.
  - rewrite map_total_insert_None by done.
    assert (0 ≤ v) by (apply (Hpos k); apply lookup_insert_eq).
    assert (0 ≤ map_total m); [|lia].
    apply IH. intros k' v' Hk'. apply (Hpos k').
    rewrite lookup_insert_ne; [done|]. congruence.
Qed.

Lemma map_total_lookup_le (m : gmap string Z) k v :
  (∀ k v, m !! k = Some v → 0 ≤ v) → m !! k = Some v → v ≤ map_total m.
Proof.
  intros Hpos Hk. rewrite (map_total_delete m k v Hk).
  assert (0 ≤ map_total (delete k m)); [|lia].
  apply map_total_nonneg. intros k' v' Hk'. apply (Hpos k').
  apply lookup_delete_Some in Hk'. tauto.
Qed.
End MapTotal.

Section GetSummaryFacts.
Context {meta : UnifiedMeta} {codec : TLVUtil} {St : Type}
  {engine : KvStoreNbDelegate.t St}.

(** The size of a form, when it is within [int64_t]: the size of the
    details, the four bytes of [formId_], and the lengths of the four
    strings; the uid is not counted. *)
Lemma Form_GetSize (form : SystemDefinedForm.t) :
  let n := GetDetailsSize (SystemDefinedForm.details_ form) + 4
           + SystemDefinedForm.size (SystemDefinedForm.formName_ form)
           + SystemDefinedForm.size (SystemDefinedForm.bundleName_ form)
           + SystemDefinedForm.size (SystemDefinedForm.abilityName_ form)
           + SystemDefinedForm.size (SystemDefinedForm.module_ form) in
  0 ≤ n ≤ INT64_MAX → GetSize (Form form) = n.
Proof. intros n Hn. simpl. unfold SystemDefinedForm.GetSize. by apply to_int64_id. Qed.

Lemma sum_sizes_nonneg records : Forall sized records → 0 ≤ sum_sizes records.
Proof. induction 1 as [|r rs [_ Hr] _ IH]; simpl; lia. Qed.

Lemma add_sizes_cons old record records :
  add_sizes (Some (default 0 old + GetSize record)) records
    = add_sizes old (record :: records).
Proof. destruct records; simpl; f_equal; lia. Qed.

Lemma GetSummary_records_sums records summary0 :
  Forall sized records →
  (∀ k v, summary summary0 !! k = Some v → 0 ≤ v) →
  map_total (summary summary0) = totalSize summary0 →
  totalSize summary0 + sum_sizes records ≤ INT64_MAX →
  ∃ summary1,
    RuntimeStore.GetSummary_records (Some <$> records) summary0 = Some summary1 ∧
    totalSize summary1 = totalSize summary0 + sum_sizes records ∧
    map_total (summary summary1) = totalSize summary1 ∧
    ∀ name, summary summary1 !! name
              = add_sizes (summary summary0 !! name) (of_kind name records).
Proof.
  intros Hall. revert summary0.
  induction Hall as [|record rest [[kind Hkind] Hsize] Hrest IH];
    intros summary0 Hpos Htotal Hmax; simpl.
  - exists summary0. split; [done|]. split; [lia|]. split; [done|]. done.
  - pose proof (sum_sizes_nonneg rest Hrest) as Hsum.
    pose proof (map_total_nonneg _ Hpos) as Htot0.
    rewrite Hkind. simpl.
    change (sum_sizes (record :: rest))
      with (GetSize record + sum_sizes rest) in Hmax.
    assert (to_int64 (totalSize summary0 + GetSize record)
              = totalSize summary0 + GetSize record) as Htotal'.
    { apply to_int64_id. lia. }
    rewrite Htotal'.
    set (map1 := match summary summary0 !! kind with
                 | Some old => <[kind := to_int64 (old + GetSize record)]> (summary summary0)
                 | None => <[kind := GetSize record]> (summary summary0)
                 end).
    assert (map1 = <[kind := default 0 (summary summary0 !! kind) + GetSize record]>
                     (summary summary0)) as Hmap1.
    { unfold map1. destruct (summary summary0 !! kind) as [old|] eqn:Hold; simpl; [|done].
      rewrite to_int64_id; [done|].
      pose proof (Hpos _ _ Hold). pose proof (map_total_lookup_le _ _ _ Hpos Hold). lia. }
    assert (map_total map1 = totalSize summary0 + GetSize record) as Hmap1_total.
    { rewrite Hmap1. destruct (summary summary0 !! kind) as [old|] eqn:Hold; simpl.
      - rewrite (map_total_insert_Some _ _ _ _ Hold). lia.
      - rewrite (map_total_insert_None _ _ _ Hold). lia. }
    destruct (IH {| summary := map1;
                    totalSize := totalSize summary0 + GetSize record |})
      as (summary1 & Hloop & Hsize1 & Htotal1 & Hkinds); simpl.
    + intros k v. rewrite Hmap1, lookup_insert. case_decide.
      * intros [= <-]. destruct (summary summary0 !! kind) as [old|] eqn:Hold; simpl; [|lia].
        pose proof (Hpos _ _ Hold). lia.
      * apply Hpos.
    + done.
    + lia.
    + exists summary1. split; [done|]. simpl in Hsize1. split; [lia|]. split; [done|].
      intros name. rewrite Hkinds. simpl. rewrite Hmap1, lookup_insert.
      unfold of_kind. rewrite filter_cons. rewrite Hkind.
      destruct (decide (kind = name)) as [->|Hne].
      * rewrite decide_True by done. apply add_sizes_cons.
      * rewrite decide_False by congruence. done.
Qed.

Lemma Get_entries_records key entries unifiedData status unifiedData' :
  RuntimeStore.Get_entries key entries unifiedData = (status, unifiedData') →
  ∃ records, records_ unifiedData' = records_ unifiedData ++ (Some <$> records).
Proof.
  revert unifiedData. induction entries as [|entry rest IH]; intros unifiedData; simpl.
  - intros [= _ <-]. exists []. by rewrite app_nil_r.
  - case_decide.
    + destruct (Reading_runtime _) as [runtime|].
      * intros Hget. apply IH in Hget as [records Hrec]. by exists records.
      * intros [= _ <-]. exists []. by rewrite app_nil_r.
    + destruct (Reading_record _) as [record|].
      * intros Hget. apply IH in Hget as [records Hrec]. exists (record :: records).
        rewrite Hrec. simpl. by rewrite <-app_assoc.
      * intros [= _ <-]. exists []. by rewrite app_nil_r.
Qed.

Lemma Get_new_records key (s : St) status unifiedData :
  RuntimeStore.Get key UnifiedData_new s = (status, unifiedData) →
  ∃ records, records_ unifiedData = Some <$> records.
Proof.
  unfold RuntimeStore.Get. destruct (RuntimeStore.GetEntries key s) as [|e es].
  - intros [= _ <-]. by exists [].
  - intros Hget. by apply Get_entries_records in Hget.
Qed.

(** C8: [GetSummary] returns [E_DB_ERROR], the summary untouched, when
    the [Get] it runs does not return [E_OK].  When [Get] returns [E_OK]
    with records whose kinds have a name and whose sizes are not negative
    and add up within [int64_t], [GetSummary] into a new [Summary] returns
    [E_OK]; [totalSize] is the sum of the sizes of the records, the runtime
    block not counted; the entry of each kind is the sum of the sizes of
    its records; and the entries add up to [totalSize]. *)
Theorem GetSummary_sums (key : string) (s : St) (status : Status)
    (unifiedData : UnifiedData) :
  RuntimeStore.Get key UnifiedData_new s = (status, unifiedData) →
  (status ≠ E_OK →
     ∀ summary0, RuntimeStore.GetSummary key summary0 s = Some (E_DB_ERROR, summary0)) ∧
  (status = E_OK →
     ∃ records,
       records_ unifiedData = Some <$> records ∧
       (Forall sized records → sum_sizes records ≤ INT64_MAX →
        ∃ summary1,
          RuntimeStore.GetSummary key Summary_new s = Some (E_OK, summary1) ∧
          totalSize summary1 = sum_sizes records ∧
          map_total (summary summary1) = totalSize summary1 ∧
          ∀ name, summary summary1 !! name = add_sizes None (of_kind name records))).
Proof.
  intros Hget. split.
  - intros Hs summary0. unfold RuntimeStore.GetSummary. rewrite Hget.
    by rewrite decide_True.
  - intros ->. destruct (Get_new_records _ _ _ _ Hget) as [records Hrec].
    exists records. split; [done|]. intros Hall Hmax.
    destruct (GetSummary_records_sums records Summary_new Hall)
      as (summary1 & Hloop & Hsize1 & Htotal1 & Hkinds); simpl.
    + intros k v. by rewrite lookup_empty.
    + apply map_total_empty.
    + lia.
    + exists summary1. unfold RuntimeStore.GetSummary. rewrite Hget. simpl.
      rewrite Hrec, Hloop. simpl. split; [done|]. split; [simpl in Hsize1; lia|].
      split; [done|]. intros name. rewrite Hkinds. simpl. by rewrite lookup_empty.
Qed.
End GetSummaryFacts.

(** ** Put and then Get *)

Section RoundTripFacts.
Context {meta : UnifiedMeta} {codec : TLVUtil} {St : Type}
  {engine : KvStoreNbDelegate.t St} {laws : KvStoreLaws St}.

Lemma member_key_app unifiedKey record :
  member_key unifiedKey record =
    Key_of_string unifiedKey ++ x2f :: Key_of_string (GetUid record).
Proof. unfold member_key. by rewrite !Key_of_string_app. Qed.

Lemma member_key_ne unifiedKey record :
  member_key unifiedKey record ≠ Key_of_string unifiedKey.
Proof.
  rewrite member_key_app. intros Heq.
  rewrite <-(app_nil_r (Key_of_string unifiedKey)) in Heq at 2.
  by apply app_inv_head in Heq.
Qed.

Lemma member_key_uid unifiedKey record1 record2 :
  member_key unifiedKey record1 = member_key unifiedKey record2 →
  GetUid record1 = GetUid record2.
Proof.
  rewrite !member_key_app. intros Heq%app_inv_head.
  injection Heq as Heq. by apply (inj Key_of_string).
Qed.

Lemma member_key_lt unifiedKey record1 record2 :
  lexico (member_key unifiedKey record1) (member_key unifiedKey record2)
    ↔ uid_lt record1 record2.
Proof. by rewrite !member_key_app, lexico_app, lexico_cons. Qed.

Lemma member_key_prefix unifiedKey record :
  Key_of_string unifiedKey `prefix_of` member_key unifiedKey record.
Proof. rewrite member_key_app. by eexists. Qed.

Lemma member_key_gt unifiedKey record :
  lexico (Key_of_string unifiedKey) (member_key unifiedKey record).
Proof. rewrite member_key_app. apply lexico_prefix. Qed.

Lemma member_key_string unifiedKey record :
  string_of_Key (member_key unifiedKey record) ≠ unifiedKey.
Proof.
  intros Heq. apply (member_key_ne unifiedKey record).
  rewrite <-Heq at 2. unfold Key_of_string, string_of_Key.
  by rewrite String.list_byte_of_string_of_list_byte.
Qed.

Lemma entries_of_records unifiedKey records entries :
  Forall2 (is_record_entry unifiedKey) records entries →
  entries = entry_of unifiedKey <$> records.
Proof.
  induction 1 as [|record entry records entries [Hkey Hbytes] _ IH]; csimpl; [done|].
  rewrite <-IH. f_equal. unfold entry_of. rewrite Hbytes, <-Hkey. by destruct entry.
Qed.

Lemma Get_entries_of_records key records unifiedData :
  Forall decodes_back records →
  RuntimeStore.Get_entries key (entry_of key <$> records) unifiedData =
    (E_OK, {| runtime_ := runtime_ unifiedData;
              records_ := records_ unifiedData ++ (Some <$> records) |}).
Proof.
  intros Hall. revert unifiedData.
  induction Hall as [|record records (bytes & Hw & Hr) _ IH]; intros unifiedData; csimpl.
  - rewrite app_nil_r. by destruct unifiedData.
  - rewrite decide_False by apply member_key_string.
    rewrite Hw. simpl. rewrite Hr, IH. simpl. by rewrite <-app_assoc.
Qed.

Lemma uid_lt_asym record1 record2 : uid_lt record1 record2 → uid_lt record2 record1 → False.
Proof. apply (strict_anti_symm (R := @lexico Key _)). Qed.

(** What a scan under the key shows after a batch of the record entries
    and the runtime entry was written over entries of the same keys. *)
Lemma scan_after_PutBatch unifiedKey records runtimeBytes (s s' : St) :
  let batch := (entry_of unifiedKey <$> records)
                 ++ [Entry.mk (Key_of_string unifiedKey) runtimeBytes] in
  NoDup (GetUid <$> records) →
  (∀ e, e ∈ RuntimeStore.GetEntries unifiedKey s →
        own_key unifiedKey records (Entry.key e)) →
  KvStoreNbDelegate.PutBatch batch s = (DBStatus.OK, s') →
  ∃ records',
    RuntimeStore.GetEntries unifiedKey s' =
      Entry.mk (Key_of_string unifiedKey) runtimeBytes :: (entry_of unifiedKey <$> records') ∧
    records' ≡ₚ records ∧ StronglySorted uid_lt records'.
Proof.
  intros batch Huids Hown Hput.
  pose (K := Key_of_string unifiedKey).
  pose (rtE := Entry.mk K runtimeBytes).
  set (L := RuntimeStore.GetEntries unifiedKey s').
  assert (Entry.key <$> batch = (member_key unifiedKey <$> records) ++ [K]) as Hkeys.
  { unfold batch. rewrite fmap_app, <-list_fmap_compose. done. }
  assert (NoDup (Entry.key <$> batch)) as Hnodup_keys.
  { rewrite Hkeys. apply NoDup_app. split; [|split].
    - revert Huids. apply NoDup_fmap_finer. apply member_key_uid.
    - intros k (record & -> & _)%list_elem_of_fmap Hin.
      apply list_elem_of_singleton in Hin. by apply member_key_ne in Hin.
    - apply NoDup_singleton. }
  assert (∀ e, e ∈ batch → K `prefix_of` Entry.key e) as Hprefix.
  { intros e [Hin|Hin]%elem_of_app.
    - apply list_elem_of_fmap in Hin as (record & -> & _). apply member_key_prefix.
    - apply list_elem_of_singleton in Hin as ->. done. }
  assert (∀ e, e ∈ L ↔ e ∈ batch) as Hsame.
  { intros e. unfold L. rewrite GetEntries_scan.
    rewrite (PutBatch_OK _ _ _ _ _ Hput). split.
    - intros [_ [Hval|[Hnone Hold]]].
      + apply (batch_value_Some _ _ _ Hnodup_keys) in Hval. by destruct e.
      + apply batch_value_None in Hnone. destruct Hnone.
        rewrite <-GetEntries_scan in Hold. rewrite Hkeys.
        destruct (Hown e Hold) as [->|(record & Hin & ->)].
        * apply elem_of_app. right. by apply list_elem_of_singleton.
        * apply elem_of_app. left. by apply list_elem_of_fmap_2.
    - intros Hin. split; [by apply Hprefix|]. left.
      apply (batch_value_Some _ _ _ Hnodup_keys). by destruct e. }
  assert (StronglySorted lexico (Entry.key <$> L)) as Hsorted.
  { unfold L. rewrite GetEntries_scan. apply GetEntries_sorted. }
  assert (∃ rest, L = rtE :: rest) as [rest HL].
  { apply sorted_head; [done| |].
    - apply Hsame, elem_of_app. right. by apply list_elem_of_singleton.
    - intros e' Hin Hne. apply Hsame in Hin. apply elem_of_app in Hin as [Hin|Hin].
      + apply list_elem_of_fmap in Hin as (record & -> & _). apply member_key_gt.
      + by apply list_elem_of_singleton in Hin. }
  assert (L ≡ₚ batch) as Hperm.
  { apply NoDup_Permutation; [| |done].
    - eapply NoDup_fmap_1, StronglySorted_NoDup; [|exact Hsorted]. apply _.
    - apply (NoDup_fmap_1 Entry.key), Hnodup_keys. }
  assert (rest ≡ₚ entry_of unifiedKey <$> records) as Hrest.
  { apply (Permutation_cons_inv (a := rtE)). rewrite <-HL, Hperm. unfold batch.
    symmetry. apply Permutation_cons_append. }
  apply Permutation_fmap_inv in Hrest as (records' & -> & Hrecords).
  exists records'. split; [done|]. split; [done|].
  rewrite HL in Hsorted. csimpl in Hsorted.
  apply StronglySorted_inv in Hsorted as [Hsorted _].
  rewrite <-list_fmap_compose in Hsorted.
  clear -Hsorted. induction records' as [|record records' IH]; [constructor|].
  csimpl in Hsorted. apply StronglySorted_inv in Hsorted as [Hsorted Hall].
  constructor; [by apply IH|].
  rewrite Forall_fmap in Hall. eapply Forall_impl; [exact Hall|].
  intros record' Hlt. simpl in Hlt. by apply member_key_lt in Hlt.
Qed.

(** C1, amended: let [d] have a runtime block and records, none null,
    with pairwise distinct uids; let the codec read back what it writes
    for each record and for the runtime block; let the engine meet
    [KvStoreLaws] and hold, under the key of [d], only entries with the
    group key or a member key of [d]; and let [Put(d)] return [E_OK].
    Then [Get] with the key of [d], on the engine [Put] left, returns
    [E_OK] with the runtime block of [d] and with the records of [d] in
    ascending order of uid, which is the order of [d] when [d] had them
    in that order. *)
Theorem Put_then_Get_in_key_order (unifiedData : UnifiedData) (runtime : Runtime)
    (records : list UnifiedRecord) (s s' : St) :
  runtime_ unifiedData = Some runtime →
  records_ unifiedData = Some <$> records →
  let key := GetUnifiedKey (Runtime_key runtime) in
  NoDup (GetUid <$> records) →
  Forall decodes_back records →
  (∃ bytes, Writing_runtime runtime = Some bytes ∧ Reading_runtime bytes = Some runtime) →
  (∀ e, e ∈ RuntimeStore.GetEntries key s → own_key key records (Entry.key e)) →
  RuntimeStore.Put unifiedData s = Some (E_OK, s') →
  ∃ records',
    RuntimeStore.Get key UnifiedData_new s' =
      (E_OK, {| runtime_ := Some runtime; records_ := Some <$> records' |}) ∧
    records' ≡ₚ records ∧
    StronglySorted uid_lt records' ∧
    (StronglySorted uid_lt records → records' = records).
Proof.
  intros Hrt Hrecs key Huids Hdec (runtimeBytes & Hwr & Hrr) Hown Hput.
  destruct (Put_writes_batch unifiedData runtime runtimeBytes s Hrt) as
    (entries & Hentries & Hput'); [|done|].
  { intros record Hin. rewrite Hrecs in Hin.
    apply list_elem_of_fmap in Hin as (record' & [= ->] & Hin).
    rewrite Forall_forall in Hdec. destruct (Hdec _ Hin) as (bytes & Hw & _). by eexists. }
  fold key in Hentries, Hput'.
  unfold non_null in Hentries. rewrite Hrecs, omap_id_fmap_Some in Hentries.
  apply entries_of_records in Hentries as ->.
  rewrite Hput in Hput'.
  destruct (KvStoreNbDelegate.PutBatch _ s) as [status s1] eqn:Hbatch.
  unfold of_DBStatus in Hput'. simpl in Hput'.
  case_decide as Hstatus; [|done]. injection Hput' as <-. subst status.
  destruct (scan_after_PutBatch key records runtimeBytes s s' Huids Hown Hbatch)
    as (records' & Hscan & Hperm & Hsorted).
  exists records'. split; [|split; [done|split; [done|]]].
  - rewrite Get_as_Get_entries, Hscan. cbn [RuntimeStore.Get_entries Entry.key Entry.value].
    rewrite decide_True by apply string_of_Key_of_string.
    rewrite Hrr. rewrite Get_entries_of_records; [done|]. by rewrite Hperm.
  - intros Hsorted0. apply (StronglySorted_unique_strong uid_lt); [|done|done|done].
    intros record1 record2 _ _ H12 H21. by destruct (uid_lt_asym _ _ H12 H21).
Qed.
End RoundTripFacts.

(** * The store on the sample data *)

(** A record that does not encode, a runtime block that does not, a batch
    the engine refuses, and a [Put] that succeeds. *)
Lemma Put_status_witness :
  RuntimeStore.Put (Data.data Data.runtime [Some Data.text_a; Some Data.big]) Data.empty
    = Some (E_INVALID_PARAMETERS, Data.empty) ∧
  RuntimeStore.Put (Data.data Data.late_runtime [Some Data.text_a]) Data.empty
    = Some (E_UNKNOWN, Data.empty) ∧
  RuntimeStore.Put (Data.data Data.runtime [Some Data.text_a]) (MemKv.of_entries [] 1)
    = Some (E_DB_ERROR, MemKv.of_entries [] 1) ∧
  RuntimeStore.Put (Data.data Data.runtime [Some Data.text_a]) Data.empty
    = Some (E_OK, MemKv.of_entries
                    [Data.record_entry Data.key Data.text_a;
                     Data.runtime_entry Data.runtime] 8).
Proof.
  assert (∀ record : UnifiedRecord,
            Some record ∈ [Some Data.text_a] → is_Some (Writing_record record)) as Hall.
  { intros record Hin. members Hin. eexists. computed. }
  split; [|split; [|split]].
  - apply (Put_status (codec := Sample.codec)
             (Data.data Data.runtime [Some Data.text_a; Some Data.big])
             Data.runtime Data.empty eq_refl).
    exists Data.big. split; [|computed]. apply list_elem_of_In. simpl. tauto.
  - apply (Put_status (codec := Sample.codec)
             (Data.data Data.late_runtime [Some Data.text_a])
             Data.late_runtime Data.empty eq_refl);
      [exact Hall|computed].
  - destruct (Put_status (codec := Sample.codec)
                (Data.data Data.runtime [Some Data.text_a]) Data.runtime
                (MemKv.of_entries [] 1) eq_refl) as [_ Hput].
    destruct (Hput Hall) as [_ Hbatch].
    destruct (Hbatch _ eq_refl) as (entries & Hentries & Hstatus).
    apply entries_of_records in Hentries. subst entries.
    apply (Hstatus (DBStatus.OTHER 1)); [computed|done].
  - destruct (Put_status (codec := Sample.codec)
                (Data.data Data.runtime [Some Data.text_a]) Data.runtime
                Data.empty eq_refl) as [_ Hput].
    destruct (Hput Hall) as [_ Hbatch].
    destruct (Hbatch _ eq_refl) as (entries & Hentries & Hstatus).
    apply entries_of_records in Hentries. subst entries.
    apply (Hstatus DBStatus.OK); [computed|done].
Defined.

(** Three records of which the middle one is null: a batch of two record
    entries and the runtime entry. *)
Lemma Put_skips_null_records_witness :
  RuntimeStore.Put (Data.data Data.runtime [Some Data.text_b; None; Some Data.text_a])
      Data.empty
    = RuntimeStore.Put (Data.data Data.runtime [Some Data.text_b; Some Data.text_a])
        Data.empty ∧
  ∃ entries,
    length entries = 2%nat ∧
    RuntimeStore.Put (Data.data Data.runtime [Some Data.text_b; None; Some Data.text_a])
        Data.empty
      = Some (of_DBStatus (KvStoreNbDelegate.PutBatch
                (entries ++ [Data.runtime_entry Data.runtime]) Data.empty)).
Proof.
  destruct (Put_skips_null_records (codec := Sample.codec)
              (Data.data Data.runtime [Some Data.text_b; None; Some Data.text_a])
              Data.empty)
    as [Hsame Hbatch].
  destruct (Hbatch Data.runtime (Entry.value (Data.runtime_entry Data.runtime)) eq_refl)
    as (entries & _ & Hlength & Hput).
  - intros record Hin. members Hin; eexists; computed.
  - computed.
  - split; [exact Hsame|]. exists entries. split; [exact Hlength|exact Hput].
Defined.

(** A key with no entry, and a scan whose third entry does not decode: the
    runtime block and the first record are in the output. *)
Lemma Get_status_witness :
  RuntimeStore.Get Data.key (Data.data Data.late_runtime []) Data.empty
    = (E_OK, Data.data Data.late_runtime []) ∧
  RuntimeStore.Get Data.key UnifiedData_new Data.damaged
    = (E_UNKNOWN, Data.data Data.runtime [Some Data.text_a]).
Proof.
  split.
  - apply (Get_status (codec := Sample.codec)). computed.
  - apply (Get_status (codec := Sample.codec) Data.key UnifiedData_new Data.damaged)
      with (done := [Data.runtime_entry Data.runtime; Data.record_entry Data.key Data.text_a])
           (entry := Data.damaged_entry Data.key Data.text_b) (rest := []);
      computed.
Defined.

(** Three keys of which the second cannot be deleted: the first is deleted,
    the status is that of the second, and the entry of the third is still
    there. *)
Lemma DeleteBatch_first_failure_witness :
  RuntimeStore.DeleteBatch [Data.key; Data.other_key; Data.last_key] Data.groups
    = (E_DB_ERROR, Data.groups_less_first) ∧
  RuntimeStore.GetEntries Data.last_key Data.groups_less_first
    = [Data.runtime_entry Data.last_runtime].
Proof.
  split; [|computed].
  apply (DeleteBatch_first_failure Data.groups)
    with (done := [Data.key]) (s1 := Data.groups_less_first); [computed|computed|done].
Defined.

(** A stored object, deleted and read again. *)
Lemma Get_after_Delete_witness :
  RuntimeStore.Delete Data.key Data.stored = (E_OK, Data.empty) ∧
  RuntimeStore.Get Data.key UnifiedData_new Data.empty
    = (E_OK, {| runtime_ := None; records_ := [] |}).
Proof.
  split; [computed|].
  apply (Get_after_Delete (codec := Sample.codec) Data.key UnifiedData_new
           Data.stored Data.empty).
  computed.
Defined.

(** Three groups and one member entry under the namespace prefix: three
    objects are returned. *)
Lemma GetDatas_selects_group_keys_witness :
  RuntimeStore.GetDatas "udmf://" Data.groups
    = [Data.data Data.runtime [];
       Data.data Data.other_runtime [Some Data.text_a];
       Data.data Data.last_runtime []].
Proof.
  rewrite (proj1 (GetDatas_selects_group_keys (codec := Sample.codec)
                    "udmf://" Data.groups)).
  computed.
Defined.

(** A text record of size 10 and a form of size 24. *)
Lemma GetSummary_sums_witness :
  ∃ summary1,
    RuntimeStore.GetSummary Data.key Summary_new Data.stored = Some (E_OK, summary1) ∧
    totalSize summary1 = 34 ∧
    map_total (summary summary1) = 34 ∧
    summary summary1 !! "Text" = Some 10 ∧
    summary summary1 !! "SystemDefinedForm" = Some 24 ∧
    summary summary1 !! "Image" = None.
Proof.
  destruct (GetSummary_sums (codec := Sample.codec) Data.key Data.stored E_OK
              (Data.data Data.runtime [Some Data.text_a; Some Data.form_c]))
    as [_ Hsums]; [computed|].
  destruct (Hsums eq_refl) as (records & Hrecords & Hsummary).
  assert (records = [Data.text_a; Data.form_c]) as ->.
  { apply (inj (fmap Some)). symmetry. exact Hrecords. }
  destruct Hsummary as (summary1 & Hget & Htotal & Hmap & Hkinds).
  - repeat constructor; try (eexists; computed); by vm_compute.
  - by vm_compute.
  - exists summary1. split; [exact Hget|]. split; [exact Htotal|].
    split; [by rewrite Hmap|]. rewrite !Hkinds. repeat split; computed.
Defined.

(** An [Update] whose [Put] returns [E_INVALID_PARAMETERS], and one whose
    [Put] returns [E_UNKNOWN]. *)
Lemma Update_status_witness :
  RuntimeStore.Update (Data.data Data.runtime [Some Data.big]) Data.empty
    = Some (E_DB_ERROR, Data.empty) ∧
  RuntimeStore.Update (Data.data Data.late_runtime [Some Data.text_a]) Data.empty
    = Some (E_DB_ERROR, Data.empty).
Proof.
  split.
  - apply (Update_status (codec := Sample.codec)
             (Data.data Data.runtime [Some Data.big]) Data.runtime Data.empty eq_refl)
      with (s1 := Data.empty) (status := E_INVALID_PARAMETERS); [computed|computed|done].
  - apply (Update_status (codec := Sample.codec)
             (Data.data Data.late_runtime [Some Data.text_a]) Data.late_runtime
             Data.empty eq_refl)
      with (s1 := Data.empty) (status := E_UNKNOWN); [computed|computed|done].
Defined.

(** C4 as stated fails: on a record that does not encode, [Update] returns
    [E_DB_ERROR] where [Delete] followed by [Put] returns
    [E_INVALID_PARAMETERS], in either reading of the sequence. *)
Lemma Update_is_not_Delete_then_Put :
  RuntimeStore.Update (Data.data Data.runtime [Some Data.big]) Data.empty
    = Some (E_DB_ERROR, Data.empty) ∧
  Delete_then_Put (Data.data Data.runtime [Some Data.big]) Data.empty
    = Some (E_INVALID_PARAMETERS, Data.empty) ∧
  Delete_and_then_Put (Data.data Data.runtime [Some Data.big]) Data.empty
    = Some (E_INVALID_PARAMETERS, Data.empty) ∧
  RuntimeStore.Update (Data.data Data.runtime [Some Data.big]) Data.empty
    ≠ Delete_then_Put (Data.data Data.runtime [Some Data.big]) Data.empty ∧
  RuntimeStore.Update (Data.data Data.runtime [Some Data.big]) Data.empty
    ≠ Delete_and_then_Put (Data.data Data.runtime [Some Data.big]) Data.empty.
Proof.
  assert (RuntimeStore.Update (Data.data Data.runtime [Some Data.big]) Data.empty
            = Some (E_DB_ERROR, Data.empty)) as Hupdate by computed.
  assert (Delete_then_Put (Data.data Data.runtime [Some Data.big]) Data.empty
            = Some (E_INVALID_PARAMETERS, Data.empty)) as Hseq by computed.
  assert (Delete_and_then_Put (Data.data Data.runtime [Some Data.big]) Data.empty
            = Some (E_INVALID_PARAMETERS, Data.empty)) as Hshort by computed.
  rewrite Hupdate, Hseq, Hshort. repeat split; discriminate.
Qed.

(** The same input, for the amended statement. *)
Lemma Update_as_Delete_and_then_Put_witness :
  ∃ status s',
    Delete_and_then_Put (Data.data Data.runtime [Some Data.big]) Data.empty
      = Some (status, s') ∧
    RuntimeStore.Update (Data.data Data.runtime [Some Data.big]) Data.empty
      = Some (as_DbError status, s').
Proof.
  apply (Update_as_Delete_and_then_Put (codec := Sample.codec)
           (Data.data Data.runtime [Some Data.big]) Data.runtime Data.empty eq_refl).
Defined.

(** C1 as stated fails: over an engine that holds an older record under the
    key, [Get] returns that record too; and records put in the order b, a
    come back in the order a, b. *)
Lemma Put_then_Get_does_not_round_trip :
  (RuntimeStore.Put (Data.data Data.runtime [Some Data.text_b]) Data.empty
     = Some (E_OK, Data.older) ∧
   Put_then_Get (Data.data Data.runtime [Some Data.text_a]) Data.older
     = Some (E_OK, Data.data Data.runtime [Some Data.text_a; Some Data.text_b]) ∧
   ¬ round_trips (Data.data Data.runtime [Some Data.text_a]) Data.older) ∧
  (Put_then_Get (Data.data Data.runtime [Some Data.text_b; Some Data.text_a]) Data.empty
     = Some (E_OK, Data.data Data.runtime [Some Data.text_a; Some Data.text_b]) ∧
   ¬ round_trips (Data.data Data.runtime [Some Data.text_b; Some Data.text_a]) Data.empty).
Proof.
  assert (Put_then_Get (Data.data Data.runtime [Some Data.text_a]) Data.older
            = Some (E_OK, Data.data Data.runtime [Some Data.text_a; Some Data.text_b]))
    as Holder by computed.
  assert (Put_then_Get (Data.data Data.runtime [Some Data.text_b; Some Data.text_a])
            Data.empty
            = Some (E_OK, Data.data Data.runtime [Some Data.text_a; Some Data.text_b]))
    as Horder by computed.
  unfold round_trips. rewrite Holder, Horder.
  split; [split; [computed|]|]; (split; [reflexivity|discriminate]).
Qed.

(** Records a, b put over the older entry of b. *)
Lemma Put_then_Get_in_key_order_witness :
  RuntimeStore.Put (Data.data Data.runtime [Some Data.text_a; Some Data.text_b]) Data.older
    = Some (E_OK, MemKv.of_entries
                    [Data.record_entry Data.key Data.text_a;
                     Data.record_entry Data.key Data.text_b;
                     Data.runtime_entry Data.runtime] 8) ∧
  RuntimeStore.Get Data.key UnifiedData_new
      (MemKv.of_entries
         [Data.record_entry Data.key Data.text_a;
          Data.record_entry Data.key Data.text_b;
          Data.runtime_entry Data.runtime] 8)
    = (E_OK, Data.data Data.runtime [Some Data.text_a; Some Data.text_b]).
Proof.
  split; [computed|].
  destruct (Put_then_Get_in_key_order (codec := Sample.codec)
              (Data.data Data.runtime [Some Data.text_a; Some Data.text_b])
              Data.runtime [Data.text_a; Data.text_b] Data.older
              (MemKv.of_entries
                 [Data.record_entry Data.key Data.text_a;
                  Data.record_entry Data.key Data.text_b;
                  Data.runtime_entry Data.runtime] 8)
              eq_refl eq_refl)
    as (records' & Hget & _ & _ & Hsame).
  - apply (bool_decide_unpack _). computed.
  - repeat constructor; eexists; split; computed.
  - eexists. split; computed.
  - intros e Hin.
    assert (RuntimeStore.GetEntries Data.key Data.older
              = [Data.runtime_entry Data.runtime; Data.record_entry Data.key Data.text_b])
      as Hscan by computed.
    change (e ∈ RuntimeStore.GetEntries Data.key Data.older) in Hin.
    rewrite Hscan in Hin. apply elem_of_cons in Hin as [->|Hin]; [by left|].
    apply list_elem_of_singleton in Hin. subst e.
    right. exists Data.text_b. split; [|reflexivity].
    apply list_elem_of_In. simpl. tauto.
  - computed.
  - rewrite Hsame in Hget; [exact Hget|]. apply (bool_decide_unpack _). computed.
Defined.

(** * More properties of the store *)

(** ** Scans as sorted lists *)

Section ScanFacts.
Implicit Types (l : list Entry) (e : Entry).

Lemma sorted_by_key l :
  StronglySorted lexico (Entry.key <$> l) →
  StronglySorted (λ e1 e2, lexico (Entry.key e1) (Entry.key e2)) l.
Proof.
  induction l as [|e l IH]; csimpl; [constructor|].
  intros [Hl Hall]%StronglySorted_inv. constructor; [by apply IH|].
  by rewrite Forall_fmap in Hall.
Qed.

Lemma sorted_scans_equal l1 l2 :
  StronglySorted lexico (Entry.key <$> l1) →
  StronglySorted lexico (Entry.key <$> l2) →
  (∀ e, e ∈ l1 ↔ e ∈ l2) → l1 = l2.
Proof.
  intros Hl1 Hl2 Hsame.
  apply (StronglySorted_unique_strong (λ e1 e2, lexico (Entry.key e1) (Entry.key e2)));
    [|by apply sorted_by_key..|].
  - intros e1 e2 _ _ H12 H21.
    by destruct (strict_anti_symm (R := @lexico Key _) _ _ H12 H21).
  - apply NoDup_Permutation; [| |done].
    + apply (NoDup_fmap_1 Entry.key), (StronglySorted_NoDup lexico), Hl1.
    + apply (NoDup_fmap_1 Entry.key), (StronglySorted_NoDup lexico), Hl2.
Qed.

Lemma sorted_filter (P : Entry → Prop) `{!∀ e, Decision (P e)} l :
  StronglySorted lexico (Entry.key <$> l) →
  StronglySorted lexico (Entry.key <$> filter P l).
Proof.
  induction l as [|e l IH]; csimpl; [done|].
  intros [Hl Hall]%StronglySorted_inv. rewrite filter_cons.
  case_decide; [|by apply IH]. csimpl. constructor; [by apply IH|].
  rewrite Forall_fmap in Hall |- *. rewrite Forall_forall in Hall |- *.
  intros e' [_ Hin]%list_elem_of_filter. by apply Hall.
Qed.

Lemma filter_all (P : Entry → Prop) `{!∀ e, Decision (P e)} l :
  (∀ e, e ∈ l → P e) → filter P l = l.
Proof.
  induction l as [|e l IH]; intros Hall; [done|].
  rewrite filter_cons_True by (apply Hall; by left).
  f_equal. apply IH. intros e' Hin. apply Hall. by right.
Qed.
End ScanFacts.

(** ** Delete, seen from every scan *)

Section DeleteScans.
Context {meta : UnifiedMeta} {codec : TLVUtil} {St : Type}
  {engine : KvStoreNbDelegate.t St} {laws : KvStoreLaws St}
  {scans : KvStoreScanLaws St}.

Lemma elem_of_GetEntries dataPrefix (s : St) e :
  e ∈ RuntimeStore.GetEntries dataPrefix s ↔
    under dataPrefix e ∧ e ∈ (KvStoreNbDelegate.GetEntries [] s).2.
Proof. rewrite GetEntries_scan. apply GetEntries_under. Qed.

Lemma GetEntries_sorted_keys dataPrefix (s : St) :
  StronglySorted lexico (Entry.key <$> RuntimeStore.GetEntries dataPrefix s).
Proof. rewrite GetEntries_scan. apply GetEntries_sorted. Qed.

(** What a scan shows after [Delete] returned: the entries it showed before
    that are not under the deleted key. *)
Lemma elem_of_GetEntries_Delete key (s s' : St) dataPrefix e :
  RuntimeStore.Delete key s = (E_OK, s') →
  e ∈ RuntimeStore.GetEntries dataPrefix s' ↔
    e ∈ RuntimeStore.GetEntries dataPrefix s ∧ ¬ under key e.
Proof.
  unfold RuntimeStore.Delete.
  destruct (RuntimeStore.GetEntries key s) as [|e0 rest] eqn:Hscan.
  - intros [= <-]. split; [|tauto]. intros He. split; [done|]. intros Hunder.
    assert (e ∈ RuntimeStore.GetEntries key s) as Hin.
    { apply elem_of_GetEntries. split; [done|]. by apply elem_of_GetEntries in He as [_ ?]. }
    rewrite Hscan in Hin. by apply elem_of_nil in Hin.
  - destruct (KvStoreNbDelegate.DeleteBatch _ s) as [status s1] eqn:Hdel.
    case_decide as Hs; [done|]. intros [= <-]. subst status.
    rewrite <-Hscan in Hdel. rewrite !GetEntries_scan in *.
    rewrite (DeleteBatch_OK _ _ _ _ _ Hdel). split.
    + intros [He Hkey]. split; [done|]. intros Hunder. apply Hkey.
      apply list_elem_of_fmap_2, GetEntries_under. split; [done|].
      by apply GetEntries_under in He as [_ ?].
    + intros [He Hunder]. split; [done|].
      intros (e' & Hkey & He')%list_elem_of_fmap. apply Hunder.
      apply GetEntries_under in He' as [He' _]. unfold under. by rewrite Hkey.
Qed.

(** X1: when [Delete] of a key returns [E_OK], every prefix scan of the
    engine shows afterwards the entries it showed before whose key does not
    start with the key, in the same order: the entries of every object whose
    key extends the key are gone with it, and no other entry is touched. *)
Theorem Delete_removes_all_under_key (key : string) (s s' : St) :
  RuntimeStore.Delete key s = (E_OK, s') →
  ∀ dataPrefix,
    RuntimeStore.GetEntries dataPrefix s' =
      filter (λ e, ¬ under key e) (RuntimeStore.GetEntries dataPrefix s).
Proof.
  intros Hdel dataPrefix. apply sorted_scans_equal.
  - apply GetEntries_sorted_keys.
  - apply sorted_filter, GetEntries_sorted_keys.
  - intros e. rewrite list_elem_of_filter.
    rewrite (elem_of_GetEntries_Delete _ _ _ _ _ Hdel). tauto.
Qed.

Lemma apart_not_under key key' e : apart key key' → under key' e → ¬ under key e.
Proof.
  intros [Hnot1 Hnot2] Hunder' Hunder.
  destruct (prefix_weak_total _ _ _ Hunder Hunder'); tauto.
Qed.

Lemma GetEntries_Delete_apart key key' (s s' : St) :
  RuntimeStore.Delete key s = (E_OK, s') → apart key key' →
  RuntimeStore.GetEntries key' s' = RuntimeStore.GetEntries key' s.
Proof.
  intros Hdel Hapart. apply sorted_scans_equal; [apply GetEntries_sorted_keys..|].
  intros e. rewrite (elem_of_GetEntries_Delete _ _ _ _ _ Hdel). split; [tauto|].
  intros He. split; [done|]. apply (apart_not_under _ key'); [done|].
  by apply elem_of_GetEntries in He as [? _].
Qed.

Lemma Get_Delete_apart key key' (s s' : St) unifiedData :
  RuntimeStore.Delete key s = (E_OK, s') → apart key key' →
  RuntimeStore.Get key' unifiedData s' = RuntimeStore.Get key' unifiedData s.
Proof.
  intros Hdel Hapart. unfold RuntimeStore.Get.
  by rewrite (GetEntries_Delete_apart _ _ _ _ Hdel Hapart).
Qed.

Lemma GetDatas_selected dataPrefix (s : St) :
  RuntimeStore.GetDatas dataPrefix s =
    (λ entry, (RuntimeStore.Get (string_of_Key (Entry.key entry)) UnifiedData_new s).2)
      <$> filter (λ entry, is_group_key (Entry.key entry))
            (RuntimeStore.GetEntries dataPrefix s).
Proof.
  unfold RuntimeStore.GetDatas.
  destruct (RuntimeStore.GetEntries dataPrefix s) as [|entry rest] eqn:Hscan; [done|].
  by rewrite GetDatas_entries_selects.
Qed.

Lemma Key_of_string_of_Key (k : Key) : Key_of_string (string_of_Key k) = k.
Proof. apply String.list_byte_of_string_of_list_byte. Qed.

Lemma apart_under key key' e :
  apart key key' → under key' e → apart key (string_of_Key (Entry.key e)).
Proof.
  intros Hapart Hunder. unfold apart. rewrite Key_of_string_of_Key. split.
  - intros Hkey. by apply (apart_not_under _ _ e Hapart).
  - intros Hkey. destruct Hapart as [_ Hnot]. apply Hnot. by etrans.
Qed.

(** X2: when [Delete] of a key returns [E_OK], [Get], [GetSummary] and
    [GetDatas] on a key that neither starts with the deleted key nor is a
    start of it return what they returned before. *)
Theorem Delete_keeps_keys_apart (key key' : string) (s s' : St) :
  RuntimeStore.Delete key s = (E_OK, s') → apart key key' →
  (∀ unifiedData,
     RuntimeStore.Get key' unifiedData s' = RuntimeStore.Get key' unifiedData s) ∧
  (∀ summary0,
     RuntimeStore.GetSummary key' summary0 s' = RuntimeStore.GetSummary key' summary0 s) ∧
  RuntimeStore.GetDatas key' s' = RuntimeStore.GetDatas key' s.
Proof.
  intros Hdel Hapart. split; [|split].
  - intros unifiedData. by apply (Get_Delete_apart key).
  - intros summary0. unfold RuntimeStore.GetSummary.
    by rewrite (Get_Delete_apart _ _ _ _ _ Hdel Hapart).
  - rewrite !GetDatas_selected, (GetEntries_Delete_apart _ _ _ _ Hdel Hapart).
    apply Forall_fmap_ext, Forall_forall. intros e [_ He]%list_elem_of_filter.
    rewrite (Get_Delete_apart key _ s s'); [done..|].
    apply (apart_under _ key'); [done|]. by apply elem_of_GetEntries in He as [? _].
Qed.
End DeleteScans.

(** ** The statuses of Delete, DeleteBatch and Clear *)

Section DeleteStatus.
Context {St : Type} {engine : KvStoreNbDelegate.t St}.

Lemma Delete_OK_or_DbError key (s : St) :
  (RuntimeStore.Delete key s).1 = E_OK ∨ (RuntimeStore.Delete key s).1 = E_DB_ERROR.
Proof.
  unfold RuntimeStore.Delete. destruct (RuntimeStore.GetEntries key s); [by left|].
  destruct (KvStoreNbDelegate.DeleteBatch _ s). case_decide; auto.
Qed.

Lemma DeleteBatch_keys_OK_or_DbError timeoutKeys status (s : St) :
  status = E_OK ∨ status = E_DB_ERROR →
  (RuntimeStore.DeleteBatch_keys timeoutKeys status s).1 = E_OK ∨
  (RuntimeStore.DeleteBatch_keys timeoutKeys status s).1 = E_DB_ERROR.
Proof.
  revert status s. induction timeoutKeys as [|key rest IH]; intros status s Hs; [done|].
  simpl. case_decide.
  - pose proof (Delete_OK_or_DbError key s) as Hdel.
    destruct (RuntimeStore.Delete key s) as [status' s']. by apply IH.
  - by apply IH.
Qed.

(** X3: [Delete], [DeleteBatch] and [Clear] return [E_OK] or [E_DB_ERROR],
    whatever the engine answers. *)
Theorem deletes_return_OK_or_DbError (s : St) :
  (∀ key, (RuntimeStore.Delete key s).1 = E_OK ∨
          (RuntimeStore.Delete key s).1 = E_DB_ERROR) ∧
  (∀ timeoutKeys, (RuntimeStore.DeleteBatch timeoutKeys s).1 = E_OK ∨
                  (RuntimeStore.DeleteBatch timeoutKeys s).1 = E_DB_ERROR) ∧
  ((RuntimeStore.Clear s).1 = E_OK ∨ (RuntimeStore.Clear s).1 = E_DB_ERROR).
Proof.
  split; [|split].
  - intros key. apply Delete_OK_or_DbError.
  - intros timeoutKeys. rewrite DeleteBatch_as_keys.
    apply DeleteBatch_keys_OK_or_DbError. by left.
  - unfold RuntimeStore.Clear. destruct (RuntimeStore.Delete _ s). simpl.
    case_decide; auto.
Qed.

(** X4: [Clear] returns the status and leaves the engine state of [Delete]
    of the prefix [udmf://]; its own test of the status changes nothing. *)
Theorem Clear_is_Delete_of_the_namespace (s : St) :
  RuntimeStore.Clear s = RuntimeStore.Delete "udmf://" s.
Proof.
  unfold RuntimeStore.Clear. fold RuntimeStore.DATA_PREFIX.
  pose proof (Delete_OK_or_DbError RuntimeStore.DATA_PREFIX s) as Hdel.
  destruct (RuntimeStore.Delete RuntimeStore.DATA_PREFIX s) as [status s']. simpl in Hdel.
  destruct Hdel as [-> | ->]; by case_decide.
Qed.
End DeleteStatus.

(** ** After Delete, DeleteBatch and Clear *)

Section AfterDelete.
Context {meta : UnifiedMeta} {codec : TLVUtil} {St : Type}
  {engine : KvStoreNbDelegate.t St} {laws : KvStoreLaws St}.

(** X5: after a [Delete] that returned [E_OK], a second [Delete] of the same
    key returns [E_OK] and leaves the engine as it is, without a call of the
    engine's [DeleteBatch]. *)
Theorem Delete_twice (key : string) (s s' : St) :
  RuntimeStore.Delete key s = (E_OK, s') →
  RuntimeStore.Delete key s' = (E_OK, s').
Proof.
  intros Hdel. unfold RuntimeStore.Delete.
  by rewrite (Delete_OK_scan _ _ _ Hdel).
Qed.

(** X6: after a [Delete] that returned [E_OK], [GetSummary] of the key
    returns [E_OK] with the summary untouched, and [GetDatas] of the key
    returns no object. *)
Theorem nothing_reported_after_Delete (key : string) (s s' : St) :
  RuntimeStore.Delete key s = (E_OK, s') →
  (∀ summary0, RuntimeStore.GetSummary key summary0 s' = Some (E_OK, summary0)) ∧
  RuntimeStore.GetDatas key s' = [].
Proof.
  intros Hdel. pose proof (Delete_OK_scan _ _ _ Hdel) as Hscan. split.
  - intros summary0. unfold RuntimeStore.GetSummary, RuntimeStore.Get.
    by rewrite Hscan.
  - unfold RuntimeStore.GetDatas. by rewrite Hscan.
Qed.

(** A scan that shows nothing shows nothing after a later [Delete]. *)
Lemma Delete_keeps_empty key key' (s s' : St) status :
  RuntimeStore.Delete key s = (status, s') → status = E_OK →
  RuntimeStore.GetEntries key' s = [] → RuntimeStore.GetEntries key' s' = [].
Proof.
  unfold RuntimeStore.Delete.
  destruct (RuntimeStore.GetEntries key s) as [|e0 rest]; [by intros [= _ <-]|].
  destruct (KvStoreNbDelegate.DeleteBatch _ s) as [dbStatus s1] eqn:Hdel.
  case_decide as Hs; [by intros [= <- _]|]. intros [= _ <-] _ Hempty. subst dbStatus.
  apply elem_of_nil_inv. intros e He. rewrite GetEntries_scan in He.
  apply (DeleteBatch_OK _ _ _ _ _ Hdel) in He as [He _].
  rewrite <-GetEntries_scan, Hempty in He. by apply elem_of_nil in He.
Qed.

Lemma Deletes_OK_scans timeoutKeys (s s' : St) key :
  Deletes_OK timeoutKeys s = Some s' →
  (key ∈ timeoutKeys ∨ RuntimeStore.GetEntries key s = []) →
  RuntimeStore.GetEntries key s' = [].
Proof.
  revert s. induction timeoutKeys as [|k rest IH]; intros s; simpl.
  - intros [= <-] [Hin|Hempty]; [by apply elem_of_nil in Hin|done].
  - destruct (RuntimeStore.Delete k s) as [status s1] eqn:Hdel.
    case_decide as Hs; [|done]. subst status. intros Hrest Hkey.
    destruct Hkey as [[->|Hin]%elem_of_cons|Hempty].
    + apply (IH s1 Hrest). right. by apply (Delete_OK_scan _ s).
    + apply (IH s1 Hrest). by left.
    + apply (IH s1 Hrest). right. by apply (Delete_keeps_empty k key s s1 E_OK).
Qed.

Lemma DeleteBatch_OK_Deletes_OK timeoutKeys (s s' : St) :
  RuntimeStore.DeleteBatch timeoutKeys s = (E_OK, s') →
  Deletes_OK timeoutKeys s = Some s'.
Proof.
  rewrite DeleteBatch_as_keys. revert s.
  induction timeoutKeys as [|k rest IH]; intros s; simpl; [by intros [= <-]|].
  destruct (RuntimeStore.Delete k s) as [status s1]. case_decide as Hs.
  - subst status. apply IH.
  - rewrite DeleteBatch_keys_not_OK by done. by intros [= ? _].
Qed.

(** X7: after a [DeleteBatch] that returned [E_OK], for every key of the
    list, [Get] returns [E_OK] with the output untouched, [GetSummary]
    returns [E_OK] with the summary untouched, and [Delete] has nothing left
    to delete. *)
Theorem nothing_left_after_DeleteBatch (timeoutKeys : list string) (s s' : St) :
  RuntimeStore.DeleteBatch timeoutKeys s = (E_OK, s') →
  ∀ key, key ∈ timeoutKeys →
    (∀ unifiedData, RuntimeStore.Get key unifiedData s' = (E_OK, unifiedData)) ∧
    (∀ summary0, RuntimeStore.GetSummary key summary0 s' = Some (E_OK, summary0)) ∧
    RuntimeStore.Delete key s' = (E_OK, s').
Proof.
  intros Hbatch%DeleteBatch_OK_Deletes_OK key Hin.
  assert (RuntimeStore.GetEntries key s' = []) as Hscan.
  { apply (Deletes_OK_scans _ _ _ _ Hbatch). by left. }
  split; [|split].
  - intros unifiedData. unfold RuntimeStore.Get. by rewrite Hscan.
  - intros summary0. unfold RuntimeStore.GetSummary, RuntimeStore.Get. by rewrite Hscan.
  - unfold RuntimeStore.Delete. by rewrite Hscan.
Qed.
End AfterDelete.

Section AfterClear.
Context {meta : UnifiedMeta} {codec : TLVUtil} {St : Type}
  {engine : KvStoreNbDelegate.t St} {laws : KvStoreLaws St}
  {scans : KvStoreScanLaws St}.

Lemma Clear_OK_Delete (s s' : St) :
  RuntimeStore.Clear s = (E_OK, s') →
  RuntimeStore.Delete RuntimeStore.DATA_PREFIX s = (E_OK, s').
Proof.
  unfold RuntimeStore.Clear.
  pose proof (Delete_OK_or_DbError RuntimeStore.DATA_PREFIX s) as Hdel.
  destruct (RuntimeStore.Delete RuntimeStore.DATA_PREFIX s) as [status s1].
  simpl in Hdel. destruct Hdel as [-> | ->]; case_decide; by intros [= <-].
Qed.

(** X8: after a [Clear] that returned [E_OK], [Get] of every key that
    starts with [udmf://] returns [E_OK] with the output untouched and
    [GetDatas] of it returns no object, while every scan still shows, in the
    same order, the entries whose key does not start with [udmf://]. *)
Theorem Clear_empties_the_namespace (s s' : St) :
  RuntimeStore.Clear s = (E_OK, s') →
  (∀ key, Key_of_string "udmf://" `prefix_of` Key_of_string key →
     (∀ unifiedData, RuntimeStore.Get key unifiedData s' = (E_OK, unifiedData)) ∧
     RuntimeStore.GetDatas key s' = []) ∧
  (∀ dataPrefix,
     RuntimeStore.GetEntries dataPrefix s' =
       filter (λ e, ¬ under "udmf://" e) (RuntimeStore.GetEntries dataPrefix s)).
Proof.
  intros Hdel%Clear_OK_Delete. split.
  - intros key Hkey.
    assert (RuntimeStore.GetEntries key s' = []) as Hscan.
    { apply elem_of_nil_inv. intros e He.
      apply (elem_of_GetEntries_Delete _ _ _ key e Hdel) in He as [He Hnot].
      apply Hnot. apply elem_of_GetEntries in He as [He _].
      unfold under in *. by etrans. }
    split.
    + intros unifiedData. unfold RuntimeStore.Get. by rewrite Hscan.
    + unfold RuntimeStore.GetDatas. by rewrite Hscan.
  - intros dataPrefix. apply sorted_scans_equal.
    + apply GetEntries_sorted_keys.
    + apply sorted_filter, GetEntries_sorted_keys.
    + intros e. rewrite list_elem_of_filter.
      rewrite (elem_of_GetEntries_Delete _ _ _ _ _ Hdel). tauto.
Qed.
End AfterClear.

(** ** Put, seen from every scan *)

Section PutScans.
Context {meta : UnifiedMeta} {codec : TLVUtil} {St : Type}
  {engine : KvStoreNbDelegate.t St} {laws : KvStoreLaws St}.

Lemma Put_records_inr unifiedKey records entries result :
  RuntimeStore.Put_records unifiedKey records entries = inr result →
  result = entries ++ (entry_of unifiedKey <$> non_null records) ∧
  Forall (λ record, is_Some (Writing_record record)) (non_null records).
Proof.
  revert entries. induction records as [|[record|] rest IH]; intros entries; simpl.
  - intros [= <-]. by rewrite app_nil_r.
  - destruct (Writing_record record) as [bytes|] eqn:Hw; [|done].
    intros [-> Hall]%IH. split.
    + rewrite <-app_assoc. simpl. unfold entry_of at 2, member_key. by rewrite Hw.
    + constructor; [by eexists|done].
  - apply IH.
Qed.

Lemma Put_records_inl unifiedKey records entries status :
  RuntimeStore.Put_records unifiedKey records entries = inl status →
  status = E_INVALID_PARAMETERS.
Proof.
  revert entries. induction records as [|[record|] rest IH]; intros entries; simpl.
  - done.
  - destruct (Writing_record record); [apply IH|by intros [= <-]].
  - apply IH.
Qed.

(** What a [Put] that returned [E_OK] gave to the engine. *)
Lemma Put_OK_batch unifiedData (s s' : St) :
  RuntimeStore.Put unifiedData s = Some (E_OK, s') →
  ∃ runtime runtimeBytes,
    runtime_ unifiedData = Some runtime ∧
    Writing_runtime runtime = Some runtimeBytes ∧
    Forall (λ record, is_Some (Writing_record record)) (non_null (records_ unifiedData)) ∧
    let unifiedKey := GetUnifiedKey (Runtime_key runtime) in
    KvStoreNbDelegate.PutBatch
      ((entry_of unifiedKey <$> non_null (records_ unifiedData))
         ++ [Entry.mk (Key_of_string unifiedKey) runtimeBytes]) s = (DBStatus.OK, s').
Proof.
  unfold RuntimeStore.Put. destruct (runtime_ unifiedData) as [runtime|]; [simpl|done].
  destruct (RuntimeStore.Put_records _ _ _) as [status|entries] eqn:Hrecords.
  { apply Put_records_inl in Hrecords. subst status. by intros [= ?]. }
  apply Put_records_inr in Hrecords as [-> Hall].
  destruct (Writing_runtime runtime) as [runtimeBytes|] eqn:Hw; [|done].
  destruct (KvStoreNbDelegate.PutBatch _ s) as [status s1] eqn:Hbatch.
  case_decide as Hs; [done|]. intros [= <-].
  exists runtime, runtimeBytes. split; [done|]. split; [done|]. split; [done|].
  simpl in *. rewrite Hbatch. by subst status.
Qed.

Lemma batch_keys unifiedKey records runtimeBytes :
  Entry.key <$> ((entry_of unifiedKey <$> records)
                   ++ [Entry.mk (Key_of_string unifiedKey) runtimeBytes])
    = (member_key unifiedKey <$> records) ++ [Key_of_string unifiedKey].
Proof. by rewrite fmap_app, <-list_fmap_compose. Qed.

Lemma own_key_batch unifiedKey records runtimeBytes k :
  own_key unifiedKey records k ↔
    k ∈ Entry.key <$> ((entry_of unifiedKey <$> records)
                         ++ [Entry.mk (Key_of_string unifiedKey) runtimeBytes]).
Proof.
  rewrite batch_keys, elem_of_app, list_elem_of_singleton, list_elem_of_fmap.
  unfold own_key. split.
  - intros [->|(record & Hin & ->)]; [by right|left; by exists record].
  - intros [(record & -> & Hin)| ->]; [right; by exists record|by left].
Qed.

Lemma own_key_under unifiedKey records e :
  own_key unifiedKey records (Entry.key e) → under unifiedKey e.
Proof.
  unfold under. intros [->|(record & _ & ->)]; [done|apply member_key_prefix].
Qed.

(** A scan after a [Put] that returned [E_OK], on entries whose key is not
    one of the keys of the object. *)
Lemma elem_of_GetEntries_Put `{!KvStoreScanLaws St} unifiedData runtime (s s' : St)
    dataPrefix e :
  RuntimeStore.Put unifiedData s = Some (E_OK, s') →
  runtime_ unifiedData = Some runtime →
  ¬ own_key (GetUnifiedKey (Runtime_key runtime)) (non_null (records_ unifiedData))
      (Entry.key e) →
  e ∈ RuntimeStore.GetEntries dataPrefix s' ↔ e ∈ RuntimeStore.GetEntries dataPrefix s.
Proof.
  intros (runtime' & runtimeBytes & Hrt' & _ & _ & Hbatch)%Put_OK_batch Hrt Hown.
  rewrite Hrt in Hrt'. injection Hrt' as <-. simpl in Hbatch.
  rewrite (own_key_batch _ _ runtimeBytes), <-batch_value_None in Hown.
  rewrite !GetEntries_scan, (PutBatch_OK _ _ _ _ _ Hbatch), Hown. split.
  - intros [_ [?|[_ ?]]]; done.
  - intros He. split; [|by right]. by apply GetEntries_under in He as [? _].
Qed.

(** X9: a [Put] that returned [E_OK] changes no entry other than those
    with the group key of the object or the member key of one of its
    records: a scan shows an entry with another key after the [Put] exactly
    when it showed it before, and scans and [Get] on a key that neither
    starts with the key of the object nor is a start of it are unchanged. *)
Theorem Put_changes_only_its_own_keys {scans : KvStoreScanLaws St}
    (unifiedData : UnifiedData) (runtime : Runtime) (s s' : St) :
  RuntimeStore.Put unifiedData s = Some (E_OK, s') →
  runtime_ unifiedData = Some runtime →
  let unifiedKey := GetUnifiedKey (Runtime_key runtime) in
  (∀ dataPrefix e,
     ¬ own_key unifiedKey (non_null (records_ unifiedData)) (Entry.key e) →
     e ∈ RuntimeStore.GetEntries dataPrefix s' ↔
       e ∈ RuntimeStore.GetEntries dataPrefix s) ∧
  (∀ key', apart unifiedKey key' →
     RuntimeStore.GetEntries key' s' = RuntimeStore.GetEntries key' s ∧
     ∀ data, RuntimeStore.Get key' data s' = RuntimeStore.Get key' data s).
Proof.
  intros Hput Hrt unifiedKey. split.
  - intros dataPrefix e Hown. by apply (elem_of_GetEntries_Put unifiedData runtime).
  - intros key' Hapart.
    assert (RuntimeStore.GetEntries key' s' = RuntimeStore.GetEntries key' s) as Hscan.
    { apply sorted_scans_equal; [apply GetEntries_sorted_keys..|]. intros e.
      assert (under key' e → ¬ own_key unifiedKey (non_null (records_ unifiedData))
                                (Entry.key e)) as Hother.
      { intros Hunder Hown%own_key_under.
        by apply (apart_not_under _ _ _ Hapart Hunder). }
      split; intros He.
      - apply (elem_of_GetEntries_Put unifiedData runtime s s'); [done..| |done].
        apply Hother. rewrite GetEntries_scan in He.
        by apply GetEntries_under in He as [? _].
      - apply (elem_of_GetEntries_Put unifiedData runtime s s'); [done..| |done].
        apply Hother. rewrite GetEntries_scan in He.
        by apply GetEntries_under in He as [? _]. }
    split; [done|]. intros data. unfold RuntimeStore.Get. by rewrite Hscan.
Qed.

(** X10: a second [Put] of the same object, when both return [E_OK],
    changes no scan of the engine. *)
Theorem Put_twice (unifiedData : UnifiedData) (s s1 s2 : St) :
  RuntimeStore.Put unifiedData s = Some (E_OK, s1) →
  RuntimeStore.Put unifiedData s1 = Some (E_OK, s2) →
  ∀ dataPrefix,
    RuntimeStore.GetEntries dataPrefix s2 = RuntimeStore.GetEntries dataPrefix s1.
Proof.
  intros (runtime & runtimeBytes & Hrt & Hw & _ & Hbatch1)%Put_OK_batch.
  intros (runtime' & runtimeBytes' & Hrt' & Hw' & _ & Hbatch2)%Put_OK_batch.
  rewrite Hrt in Hrt'. injection Hrt' as <-.
  rewrite Hw in Hw'. injection Hw' as <-. simpl in *.
  intros dataPrefix. apply sorted_scans_equal; [apply GetEntries_sorted_keys..|].
  intros e. rewrite !GetEntries_scan.
  rewrite (PutBatch_OK _ _ _ _ _ Hbatch2), (PutBatch_OK _ _ _ _ _ Hbatch1). tauto.
Qed.
End PutScans.

(** ** The slashes of a key *)

Section Slashes.
Context {meta : UnifiedMeta} {codec : TLVUtil}.

Lemma std_count_app (a b : string) (c : ascii) :
  RuntimeStore.std_count (a +:+ b) c
    = RuntimeStore.std_count a c + RuntimeStore.std_count b c.
Proof. induction a as [|x a IH]; simpl; [done|]. rewrite IH. lia. Qed.

Lemma std_count_nonneg (a : string) (c : ascii) : 0 ≤ RuntimeStore.std_count a c.
Proof. induction a as [|x a IH]; simpl; [done|]. case_decide; lia. Qed.

Lemma slashes_of_member_key unifiedKey record :
  slashes (string_of_Key (member_key unifiedKey record))
    = slashes unifiedKey + 1 + slashes (GetUid record).
Proof.
  unfold member_key, slashes. rewrite string_of_Key_of_string, !std_count_app.
  simpl. lia.
Qed.

(** X11: the member key of a record has the slashes of the group key, one
    more, and those of the uid of the record.  Under a group key, which has
    four slashes, it is never taken for a group key by [GetDatas], and it is
    a record entry with five slashes exactly when the uid has no slash;
    under a key with three slashes the member key of a record whose uid has
    no slash has four, as a group key has. *)
Theorem member_key_slashes (unifiedKey : string) (record : UnifiedRecord) :
  slashes (string_of_Key (member_key unifiedKey record))
    = slashes unifiedKey + 1 + slashes (GetUid record) ∧
  (is_group_key (Key_of_string unifiedKey) →
     ¬ is_group_key (member_key unifiedKey record) ∧
     (is_member_key (member_key unifiedKey record) ↔ slashes (GetUid record) = 0)) ∧
  (slashes unifiedKey = 3 → slashes (GetUid record) = 0 →
     is_group_key (member_key unifiedKey record)).
Proof.
  pose proof (slashes_of_member_key unifiedKey record) as Hsum.
  pose proof (std_count_nonneg (GetUid record) "/") as Huid.
  unfold is_group_key, is_member_key, RuntimeStore.SLASH_COUNT_IN_KEY, slashes in *.
  rewrite string_of_Key_of_string. repeat split; intros; lia.
Qed.
End Slashes.

(** ** Put and Update, and then Get, GetSummary and GetDatas *)

Section AfterPut.
Context {meta : UnifiedMeta} {codec : TLVUtil} {St : Type}
  {engine : KvStoreNbDelegate.t St} {laws : KvStoreLaws St}.

(** The scan under the key of an object after a [Put] that returned
    [E_OK], and what [Get] makes of it. *)
Lemma Get_after_Put unifiedData runtime records (s s' : St) :
  runtime_ unifiedData = Some runtime →
  records_ unifiedData = Some <$> records →
  let key := GetUnifiedKey (Runtime_key runtime) in
  NoDup (GetUid <$> records) →
  Forall decodes_back records →
  (∃ bytes, Writing_runtime runtime = Some bytes ∧ Reading_runtime bytes = Some runtime) →
  (∀ e, e ∈ RuntimeStore.GetEntries key s → own_key key records (Entry.key e)) →
  RuntimeStore.Put unifiedData s = Some (E_OK, s') →
  ∃ records' runtimeBytes,
    RuntimeStore.GetEntries key s' =
      Entry.mk (Key_of_string key) runtimeBytes :: (entry_of key <$> records') ∧
    RuntimeStore.Get key UnifiedData_new s' =
      (E_OK, {| runtime_ := Some runtime; records_ := Some <$> records' |}) ∧
    records' ≡ₚ records ∧ StronglySorted uid_lt records'.
Proof.
  intros Hrt Hrecs key Huids Hdec (runtimeBytes & Hwr & Hrr) Hown Hput.
  apply Put_OK_batch in Hput as (runtime' & runtimeBytes' & Hrt' & Hw' & _ & Hbatch).
  rewrite Hrt in Hrt'. injection Hrt' as <-.
  rewrite Hwr in Hw'. injection Hw' as <-.
  simpl in Hbatch. fold key in Hbatch.
  unfold non_null in Hbatch. rewrite Hrecs, omap_id_fmap_Some in Hbatch.
  destruct (scan_after_PutBatch key records runtimeBytes s s' Huids Hown Hbatch)
    as (records' & Hscan & Hperm & Hsorted).
  exists records', runtimeBytes. split; [done|]. split; [|done].
  rewrite Get_as_Get_entries, Hscan. cbn [RuntimeStore.Get_entries Entry.key Entry.value].
  rewrite decide_True by apply string_of_Key_of_string.
  rewrite Hrr. rewrite Get_entries_of_records; [done|]. by rewrite Hperm.
Qed.

Lemma Update_OK_steps unifiedData runtime (s s' : St) :
  runtime_ unifiedData = Some runtime →
  RuntimeStore.Update unifiedData s = Some (E_OK, s') →
  ∃ s1, RuntimeStore.Delete (UnifiedKey_key (Runtime_key runtime)) s = (E_OK, s1) ∧
        RuntimeStore.Put unifiedData s1 = Some (E_OK, s').
Proof.
  intros Hrt. unfold RuntimeStore.Update. rewrite Hrt. simpl.
  destruct (RuntimeStore.Delete _ s) as [status s1] eqn:Hdel.
  case_decide as Hs; [done|]. subst status.
  destruct (RuntimeStore.Put unifiedData s1) as [[status s2]|] eqn:Hput; [simpl|done].
  case_decide as Hs; [done|]. subst status. intros [= <-]. by exists s1.
Qed.

(** X12: when [Update] of an object returns [E_OK], the key of the runtime
    block being the key [Put] writes under, the uids of the records being
    pairwise distinct and the codec decoding what it encoded, then [Get] of
    the key returns [E_OK] with the runtime block and the records of the
    object, in ascending order of their uids, whatever the engine held under
    the key before. *)
Theorem Update_then_Get (unifiedData : UnifiedData) (runtime : Runtime)
    (records : list UnifiedRecord) (s s' : St) :
  runtime_ unifiedData = Some runtime →
  records_ unifiedData = Some <$> records →
  let key := GetUnifiedKey (Runtime_key runtime) in
  UnifiedKey_key (Runtime_key runtime) = key →
  NoDup (GetUid <$> records) →
  Forall decodes_back records →
  (∃ bytes, Writing_runtime runtime = Some bytes ∧ Reading_runtime bytes = Some runtime) →
  RuntimeStore.Update unifiedData s = Some (E_OK, s') →
  ∃ records',
    RuntimeStore.Get key UnifiedData_new s' =
      (E_OK, {| runtime_ := Some runtime; records_ := Some <$> records' |}) ∧
    records' ≡ₚ records ∧
    StronglySorted uid_lt records' ∧
    (StronglySorted uid_lt records → records' = records).
Proof.
  intros Hrt Hrecs key Hkey Huids Hdec Hruntime Hupdate.
  apply (Update_OK_steps _ runtime) in Hupdate as (s1 & Hdel & Hput); [|done].
  rewrite Hkey in Hdel. apply Delete_OK_scan in Hdel.
  destruct (Get_after_Put unifiedData runtime records s1 s' Hrt Hrecs Huids Hdec Hruntime)
    as (records' & runtimeBytes & _ & Hget & Hperm & Hsorted); [|done|].
  { intros e He. fold key in He. rewrite Hdel in He. by apply elem_of_nil in He. }
  exists records'. split; [done|]. split; [done|]. split; [done|].
  intros Hsorted0. apply (StronglySorted_unique_strong uid_lt); [|done..].
  intros record1 record2 _ _ H12 H21. by destruct (uid_lt_asym _ _ H12 H21).
Qed.

Lemma sum_sizes_Permutation (records1 records2 : list UnifiedRecord) :
  records1 ≡ₚ records2 → sum_sizes records1 = sum_sizes records2.
Proof. induction 1; simpl; lia. Qed.

Lemma add_sizes_Permutation old (records1 records2 : list UnifiedRecord) :
  records1 ≡ₚ records2 → add_sizes old records1 = add_sizes old records2.
Proof.
  intros Hperm. pose proof (sum_sizes_Permutation _ _ Hperm) as Hsum.
  destruct records1 as [|r1 l1], records2 as [|r2 l2];
    cbn [add_sizes]; [done| | |by rewrite Hsum].
  - by apply Permutation_nil_cons in Hperm.
  - symmetry in Hperm. by apply Permutation_nil_cons in Hperm.
Qed.

(** X13: under the same conditions, for records whose kinds have a name
    and whose sizes are not negative and add up within [int64_t],
    [GetSummary] of the key after an [Update] that returned [E_OK] returns
    [E_OK] with the sum of the sizes of the records of the object as the
    total and the sum of each kind as its entry. *)
Theorem GetSummary_after_Update (unifiedData : UnifiedData) (runtime : Runtime)
    (records : list UnifiedRecord) (s s' : St) :
  runtime_ unifiedData = Some runtime →
  records_ unifiedData = Some <$> records →
  let key := GetUnifiedKey (Runtime_key runtime) in
  UnifiedKey_key (Runtime_key runtime) = key →
  NoDup (GetUid <$> records) →
  Forall decodes_back records →
  (∃ bytes, Writing_runtime runtime = Some bytes ∧ Reading_runtime bytes = Some runtime) →
  Forall sized records →
  sum_sizes records ≤ INT64_MAX →
  RuntimeStore.Update unifiedData s = Some (E_OK, s') →
  ∃ summary1,
    RuntimeStore.GetSummary key Summary_new s' = Some (E_OK, summary1) ∧
    totalSize summary1 = sum_sizes records ∧
    map_total (summary summary1) = sum_sizes records ∧
    ∀ name, summary summary1 !! name = add_sizes None (of_kind name records).
Proof.
  intros Hrt Hrecs key Hkey Huids Hdec Hruntime Hsized Hmax Hupdate. subst key.
  apply (Update_OK_steps _ runtime) in Hupdate as (s1 & Hdel & Hput); [|done].
  rewrite Hkey in Hdel. apply Delete_OK_scan in Hdel.
  destruct (Get_after_Put unifiedData runtime records s1 s' Hrt Hrecs Huids Hdec Hruntime)
    as (records' & runtimeBytes & _ & Hget & Hperm & _); [|done|].
  { intros e He. rewrite Hdel in He. by apply elem_of_nil in He. }
  destruct (GetSummary_records_sums records' Summary_new)
    as (summary1 & Hloop & Hsize1 & Htotal1 & Hkinds); simpl.
  - by rewrite Hperm.
  - intros k v. by rewrite lookup_empty.
  - apply map_total_empty.
  - rewrite (sum_sizes_Permutation _ _ Hperm). lia.
  - exists summary1. unfold RuntimeStore.GetSummary. rewrite Hget. simpl.
    rewrite Hloop. simpl. simpl in Hsize1.
    rewrite (sum_sizes_Permutation _ _ Hperm) in Hsize1.
    split; [done|]. split; [lia|]. split; [lia|].
    intros name. rewrite Hkinds. simpl. rewrite lookup_empty.
    apply add_sizes_Permutation. unfold of_kind. by rewrite Hperm.
Qed.

Lemma group_entries_of_records unifiedKey (records : list UnifiedRecord) :
  is_group_key (Key_of_string unifiedKey) →
  filter (λ entry, is_group_key (Entry.key entry)) (entry_of unifiedKey <$> records) = [].
Proof.
  intros Hgroup. induction records as [|record records IH]; csimpl; [done|].
  rewrite filter_cons_False; [done|]. simpl.
  pose proof (slashes_of_member_key unifiedKey record) as Hsum.
  pose proof (std_count_nonneg (GetUid record) "/") as Huid.
  unfold is_group_key, slashes, RuntimeStore.SLASH_COUNT_IN_KEY in *.
  rewrite string_of_Key_of_string in Hgroup. lia.
Qed.

(** X14: under the same conditions, for a group key, [GetDatas] of the key
    after an [Update] that returned [E_OK] returns one object: the runtime
    block and the records of the updated object in ascending order of their
    uids. *)
Theorem GetDatas_after_Update (unifiedData : UnifiedData) (runtime : Runtime)
    (records : list UnifiedRecord) (s s' : St) :
  runtime_ unifiedData = Some runtime →
  records_ unifiedData = Some <$> records →
  let key := GetUnifiedKey (Runtime_key runtime) in
  UnifiedKey_key (Runtime_key runtime) = key →
  is_group_key (Key_of_string key) →
  NoDup (GetUid <$> records) →
  Forall decodes_back records →
  (∃ bytes, Writing_runtime runtime = Some bytes ∧ Reading_runtime bytes = Some runtime) →
  RuntimeStore.Update unifiedData s = Some (E_OK, s') →
  ∃ records',
    RuntimeStore.GetDatas key s' =
      [{| runtime_ := Some runtime; records_ := Some <$> records' |}] ∧
    records' ≡ₚ records ∧ StronglySorted uid_lt records'.
Proof.
  intros Hrt Hrecs key Hkey Hgroup Huids Hdec Hruntime Hupdate. subst key.
  apply (Update_OK_steps _ runtime) in Hupdate as (s1 & Hdel & Hput); [|done].
  rewrite Hkey in Hdel. apply Delete_OK_scan in Hdel.
  destruct (Get_after_Put unifiedData runtime records s1 s' Hrt Hrecs Huids Hdec Hruntime)
    as (records' & runtimeBytes & Hscan & Hget & Hperm & Hsorted); [|done|].
  { intros e He. rewrite Hdel in He. by apply elem_of_nil in He. }
  exists records'. split; [|done].
  rewrite GetDatas_selected, Hscan.
  rewrite filter_cons_True by done.
  rewrite group_entries_of_records by done. csimpl.
  by rewrite string_of_Key_of_string, Hget.
Qed.
End AfterPut.

(** ** More on Get and GetSummary *)

Section MoreGet.
Context {meta : UnifiedMeta} {codec : TLVUtil} {St : Type}
  {engine : KvStoreNbDelegate.t St}.


Lemma GetSummary_records_None (records : list UnifiedRecord) summary0 :
  RuntimeStore.GetSummary_records (Some <$> records) summary0 = None ↔
    Exists (λ record, UD_TYPE_MAP (GetType record) = None) records.
Proof.
  revert summary0. induction records as [|record rest IH]; intros summary0; csimpl.
  - split; [done|]. by intros ?%Exists_nil.
  - rewrite Exists_cons. destruct (UD_TYPE_MAP (GetType record)) as [name|]; simpl.
    + rewrite IH. split; [by right|]. by intros [?|?].
    + split; [by left|done].
Qed.

(** X16: [GetSummary] has no result only when [Get] returned [E_OK] and the
    kind of one of the decoded records has no name in [UD_TYPE_MAP], where
    [at] throws; the records it visits are never null. *)
Theorem GetSummary_has_no_result_only_without_a_name (key : string)
    (summary0 : Summary) (s : St) :
  ∃ records,
    records_ (RuntimeStore.Get key UnifiedData_new s).2 = Some <$> records ∧
    (RuntimeStore.GetSummary key summary0 s = None ↔
       (RuntimeStore.Get key UnifiedData_new s).1 = E_OK ∧
       Exists (λ record, UD_TYPE_MAP (GetType record) = None) records).
Proof.
  destruct (RuntimeStore.Get key UnifiedData_new s) as [status unifiedData] eqn:Hget.
  destruct (Get_new_records _ _ _ _ Hget) as [records Hrecords].
  exists records. split; [done|]. unfold RuntimeStore.GetSummary. rewrite Hget. simpl.
  case_decide as Hs.
  - split; [done|]. by intros [? _].
  - rewrite Hrecords, <-(GetSummary_records_None records summary0).
    destruct (RuntimeStore.GetSummary_records _ summary0); simpl.
    + split; [done|]. by intros [_ ?].
    + split; [|done]. intros _. split; [|done].
      by destruct (decide (status = E_OK)).
Qed.

Lemma sized_of_kind name (records : list UnifiedRecord) :
  Forall sized records → Forall sized (of_kind name records).
Proof.
  unfold of_kind. rewrite !Forall_forall. intros Hall record [_ Hin]%list_elem_of_filter.
  by apply Hall.
Qed.

(** X17: [GetSummary] adds to the summary it is given.  Into a summary with
    no negative entry whose entries add up to its total, for records whose
    kinds have a name and whose sizes are not negative and keep the total
    within [int64_t], it returns [E_OK]; the total grows by the sum of the
    sizes, the entry of each kind by the sum of its records, and the result
    is again such a summary. *)
Theorem GetSummary_accumulates (key : string) (summary0 : Summary) (s : St)
    (unifiedData : UnifiedData) (records : list UnifiedRecord) :
  RuntimeStore.Get key UnifiedData_new s = (E_OK, unifiedData) →
  records_ unifiedData = Some <$> records →
  Summary_wf summary0 →
  Forall sized records →
  totalSize summary0 + sum_sizes records ≤ INT64_MAX →
  ∃ summary1,
    RuntimeStore.GetSummary key summary0 s = Some (E_OK, summary1) ∧
    totalSize summary1 = totalSize summary0 + sum_sizes records ∧
    (∀ name, summary summary1 !! name
               = add_sizes (summary summary0 !! name) (of_kind name records)) ∧
    Summary_wf summary1.
Proof.
  intros Hget Hrecords [Hpos Htotal] Hsized Hmax.
  destruct (GetSummary_records_sums records summary0 Hsized Hpos Htotal Hmax)
    as (summary1 & Hloop & Hsize1 & Htotal1 & Hkinds).
  exists summary1. unfold RuntimeStore.GetSummary. rewrite Hget. simpl.
  rewrite Hrecords, Hloop. simpl. split; [done|]. split; [done|]. split; [done|].
  split; [|done]. intros name size. rewrite Hkinds.
  pose proof (sum_sizes_nonneg _ (sized_of_kind name records Hsized)) as Hkind.
  destruct (of_kind name records) as [|record rest]; simpl.
  - apply Hpos.
  - intros [= <-]. destruct (summary summary0 !! name) as [old|] eqn:Hold; simpl.
    + pose proof (Hpos _ _ Hold). simpl in Hkind. lia.
    + simpl in Hkind. lia.
Qed.
End MoreGet.

(** ** The setters of a form and its size *)

Section FormFacts.
Context {meta : UnifiedMeta}.

Lemma to_int64_add (x k : Z) : to_int64 (to_int64 x + k) = to_int64 (x + k).
Proof.
  unfold to_int64. f_equal.
  replace ((x + 2 ^ 63) mod 2 ^ 64 - 2 ^ 63 + k + 2 ^ 63)
    with ((x + 2 ^ 63) mod 2 ^ 64 + k) by lia.
  rewrite Zplus_mod_idemp_l. f_equal. lia.
Qed.

(** X18: [SetFormId] leaves [GetSize] as it is, and each of [SetFormName],
    [SetBundleName], [SetAbilityName] and [SetModule] changes it by the
    length of the new string less the length of the one it replaces, in
    64-bit arithmetic; the uid of the form has no part in it. *)
Theorem setters_move_GetSize_by_the_lengths (form : SystemDefinedForm.t) :
  (∀ formId,
     SystemDefinedForm.GetSize (SystemDefinedForm.SetFormId formId form)
       = SystemDefinedForm.GetSize form) ∧
  (∀ formName,
     SystemDefinedForm.GetSize (SystemDefinedForm.SetFormName formName form)
       = to_int64 (SystemDefinedForm.GetSize form + SystemDefinedForm.size formName
                   - SystemDefinedForm.size (SystemDefinedForm.GetFormName form))) ∧
  (∀ bundleName,
     SystemDefinedForm.GetSize (SystemDefinedForm.SetBundleName bundleName form)
       = to_int64 (SystemDefinedForm.GetSize form + SystemDefinedForm.size bundleName
                   - SystemDefinedForm.size (SystemDefinedForm.GetBundleName form))) ∧
  (∀ abilityName,
     SystemDefinedForm.GetSize (SystemDefinedForm.SetAbilityName abilityName form)
       = to_int64 (SystemDefinedForm.GetSize form + SystemDefinedForm.size abilityName
                   - SystemDefinedForm.size (SystemDefinedForm.GetAbilityName form))) ∧
  (∀ module,
     SystemDefinedForm.GetSize (SystemDefinedForm.SetModule module form)
       = to_int64 (SystemDefinedForm.GetSize form + SystemDefinedForm.size module
                   - SystemDefinedForm.size (SystemDefinedForm.GetModule form))) ∧
  (∀ uid,
     SystemDefinedForm.GetSize
       (SystemDefinedForm.mk uid (SystemDefinedForm.details_ form)
          (SystemDefinedForm.formId_ form) (SystemDefinedForm.formName_ form)
          (SystemDefinedForm.bundleName_ form) (SystemDefinedForm.abilityName_ form)
          (SystemDefinedForm.module_ form))
       = SystemDefinedForm.GetSize form).
Proof.
  destruct form as [uid0 details formId0 formName0 bundleName0 abilityName0 module0].
  unfold SystemDefinedForm.GetSize, SystemDefinedForm.GetFormName,
    SystemDefinedForm.GetBundleName, SystemDefinedForm.GetAbilityName,
    SystemDefinedForm.GetModule.
  simpl. repeat split; try done; intros name;
    rewrite <-Z.add_sub_assoc, to_int64_add; f_equal; lia.
Qed.
End FormFacts.

(** ** The engine in memory scans by prefix *)

Global Instance MemKv_scan_laws : KvStoreScanLaws MemKv.t.
Proof.
  split. intros p s e. simpl.
  rewrite !GetEntries_scan_of, !elem_of_scan.
  split; [|tauto]. intros [Hp He]. repeat split; [done| |done]. apply prefix_nil.
Qed.

(** * The store on the sample data with more than one group *)

(** [Delete] of the key of group g1 takes the runtime entry and the record
    of g1 and the runtime entry of group g10 with it; the entries of group
    g2 and the foreign entry stay. *)
Lemma Delete_removes_all_under_key_witness :
  RuntimeStore.Delete Data.key Crowd.crowded = (E_OK, Crowd.crowded_less_key) ∧
  RuntimeStore.GetEntries "" Crowd.crowded_less_key
    = filter (λ e, ¬ under Data.key e) (RuntimeStore.GetEntries "" Crowd.crowded) ∧
  RuntimeStore.GetEntries "" Crowd.crowded_less_key
    = [Crowd.foreign_entry; Data.runtime_entry Data.other_runtime] ∧
  RuntimeStore.GetEntries Crowd.long_key Crowd.crowded
    = [Data.runtime_entry Crowd.long_runtime].
Proof.
  split; [computed|]. split; [|split; computed].
  apply (Delete_removes_all_under_key (St := MemKv.t) Data.key Crowd.crowded).
  computed.
Defined.

(** Group g2 after the [Delete] of group g1. *)
Lemma Delete_keeps_keys_apart_witness :
  apart Data.key Data.other_key ∧
  RuntimeStore.Get Data.other_key UnifiedData_new Crowd.crowded_less_key
    = RuntimeStore.Get Data.other_key UnifiedData_new Crowd.crowded ∧
  RuntimeStore.GetSummary Data.other_key Summary_new Crowd.crowded_less_key
    = RuntimeStore.GetSummary Data.other_key Summary_new Crowd.crowded ∧
  RuntimeStore.GetDatas Data.other_key Crowd.crowded_less_key
    = RuntimeStore.GetDatas Data.other_key Crowd.crowded.
Proof.
  assert (apart Data.key Data.other_key) as Hapart by decided.
  destruct (Delete_keeps_keys_apart (codec := Sample.codec) Data.key Data.other_key
              Crowd.crowded Crowd.crowded_less_key)
    as (Hget & Hsummary & Hdatas); [computed|exact Hapart|].
  split; [exact Hapart|]. split; [apply Hget|]. split; [apply Hsummary|exact Hdatas].
Defined.

(** A stored object deleted twice. *)
Lemma Delete_twice_witness :
  RuntimeStore.Delete Data.key Data.stored = (E_OK, Data.empty) ∧
  RuntimeStore.Delete Data.key Data.empty = (E_OK, Data.empty).
Proof.
  split; [computed|].
  apply (Delete_twice (St := MemKv.t) Data.key Data.stored). computed.
Defined.

(** A summary that counts five bytes, asked of a deleted object. *)
Lemma nothing_reported_after_Delete_witness :
  RuntimeStore.Delete Data.key Crowd.crowded = (E_OK, Crowd.crowded_less_key) ∧
  RuntimeStore.GetSummary Data.key Crowd.five_of_text Crowd.crowded_less_key
    = Some (E_OK, Crowd.five_of_text) ∧
  RuntimeStore.GetDatas Data.key Crowd.crowded_less_key = [].
Proof.
  split; [computed|].
  destruct (nothing_reported_after_Delete (codec := Sample.codec) Data.key
              Crowd.crowded Crowd.crowded_less_key)
    as [Hsummary Hdatas]; [computed|].
  split; [apply Hsummary|exact Hdatas].
Defined.

(** Groups g1 and g2 deleted in one call. *)
Lemma nothing_left_after_DeleteBatch_witness :
  RuntimeStore.DeleteBatch [Data.key; Data.other_key] Crowd.crowded
    = (E_OK, Crowd.foreign_only) ∧
  RuntimeStore.Get Data.other_key UnifiedData_new Crowd.foreign_only
    = (E_OK, UnifiedData_new) ∧
  RuntimeStore.GetSummary Data.other_key Summary_new Crowd.foreign_only
    = Some (E_OK, Summary_new) ∧
  RuntimeStore.Delete Data.other_key Crowd.foreign_only = (E_OK, Crowd.foreign_only).
Proof.
  split; [computed|].
  destruct (nothing_left_after_DeleteBatch (codec := Sample.codec)
              [Data.key; Data.other_key] Crowd.crowded Crowd.foreign_only)
    with (key := Data.other_key)
    as (Hget & Hsummary & Hdelete); [computed|repeat constructor|].
  split; [apply Hget|]. split; [apply Hsummary|exact Hdelete].
Defined.

(** [Clear] of the engine with three groups and a foreign entry. *)
Lemma Clear_empties_the_namespace_witness :
  RuntimeStore.Clear Crowd.crowded = (E_OK, Crowd.foreign_only) ∧
  RuntimeStore.Get Crowd.long_key UnifiedData_new Crowd.foreign_only
    = (E_OK, UnifiedData_new) ∧
  RuntimeStore.GetDatas Crowd.long_key Crowd.foreign_only = [] ∧
  RuntimeStore.GetEntries "" Crowd.foreign_only
    = filter (λ e, ¬ under "udmf://" e) (RuntimeStore.GetEntries "" Crowd.crowded).
Proof.
  split; [computed|].
  destruct (Clear_empties_the_namespace (codec := Sample.codec)
              Crowd.crowded Crowd.foreign_only)
    as [Hkeys Hscans]; [computed|].
  destruct (Hkeys Crowd.long_key) as [Hget Hdatas]; [decided|].
  split; [apply Hget|]. split; [exact Hdatas|apply Hscans].
Defined.

(** A record put under group g2, seen from group g1. *)
Lemma Put_changes_only_its_own_keys_witness :
  RuntimeStore.Put (Data.data Data.other_runtime [Some Data.text_b]) Crowd.crowded
    = Some (E_OK, Crowd.crowded_more) ∧
  RuntimeStore.GetEntries Data.key Crowd.crowded_more
    = RuntimeStore.GetEntries Data.key Crowd.crowded ∧
  RuntimeStore.Get Data.key UnifiedData_new Crowd.crowded_more
    = RuntimeStore.Get Data.key UnifiedData_new Crowd.crowded.
Proof.
  split; [computed|].
  destruct (Put_changes_only_its_own_keys (codec := Sample.codec)
              (Data.data Data.other_runtime [Some Data.text_b]) Data.other_runtime
              Crowd.crowded Crowd.crowded_more)
    as [_ Hkeys]; [computed|reflexivity|].
  destruct (Hkeys Data.key) as [Hscan Hget]; [decided|].
  split; [exact Hscan|apply Hget].
Defined.

(** The same object put twice over an older record. *)
Lemma Put_twice_witness :
  RuntimeStore.Put (Data.data Data.runtime [Some Data.form_c; Some Data.text_a]) Data.older
    = Some (E_OK, MemKv.of_entries
                    [Data.record_entry Data.key Data.text_b;
                     Data.record_entry Data.key Data.form_c;
                     Data.record_entry Data.key Data.text_a;
                     Data.runtime_entry Data.runtime] 8) ∧
  RuntimeStore.GetEntries Data.key
      (MemKv.of_entries
         [Data.record_entry Data.key Data.form_c;
          Data.record_entry Data.key Data.text_a;
          Data.runtime_entry Data.runtime;
          Data.record_entry Data.key Data.text_b] 8)
    = RuntimeStore.GetEntries Data.key
        (MemKv.of_entries
           [Data.record_entry Data.key Data.text_b;
            Data.record_entry Data.key Data.form_c;
            Data.record_entry Data.key Data.text_a;
            Data.runtime_entry Data.runtime] 8).
Proof.
  split; [computed|].
  apply (Put_twice (codec := Sample.codec)
           (Data.data Data.runtime [Some Data.form_c; Some Data.text_a]) Data.older);
    computed.
Defined.

(** Group g1 updated to the records b, a: [Get] returns a, b. *)
Lemma Update_then_Get_witness :
  RuntimeStore.Update (Data.data Data.runtime [Some Data.text_b; Some Data.text_a])
      Crowd.crowded
    = Some (E_OK, Crowd.updated) ∧
  ∃ records',
    RuntimeStore.Get Data.key UnifiedData_new Crowd.updated
      = (E_OK, Data.data Data.runtime (Some <$> records')) ∧
    records' ≡ₚ [Data.text_b; Data.text_a] ∧
    StronglySorted uid_lt records'.
Proof.
  split; [computed|].
  destruct (Update_then_Get (codec := Sample.codec)
              (Data.data Data.runtime [Some Data.text_b; Some Data.text_a])
              Data.runtime [Data.text_b; Data.text_a] Crowd.crowded Crowd.updated
              eq_refl eq_refl eq_refl)
    as (records' & Hget & Hperm & Hsorted & _).
  - apply (bool_decide_unpack _). computed.
  - repeat constructor; eexists; split; computed.
  - eexists. split; computed.
  - computed.
  - exists records'. split; [exact Hget|]. split; [exact Hperm|exact Hsorted].
Defined.

(** Group g1 updated to a text of size 20 and a form of size 24. *)
Lemma GetSummary_after_Update_witness :
  RuntimeStore.Update (Data.data Data.runtime [Some Data.text_b; Some Data.form_c])
      Crowd.crowded
    = Some (E_OK, Crowd.updated_to_form) ∧
  ∃ summary1,
    RuntimeStore.GetSummary Data.key Summary_new Crowd.updated_to_form
      = Some (E_OK, summary1) ∧
    totalSize summary1 = 44 ∧
    summary summary1 !! "Text" = Some 20 ∧
    summary summary1 !! "SystemDefinedForm" = Some 24.
Proof.
  split; [computed|].
  destruct (GetSummary_after_Update (codec := Sample.codec)
              (Data.data Data.runtime [Some Data.text_b; Some Data.form_c])
              Data.runtime [Data.text_b; Data.form_c] Crowd.crowded
              Crowd.updated_to_form eq_refl eq_refl eq_refl)
    as (summary1 & Hget & Htotal & _ & Hkinds).
  - apply (bool_decide_unpack _). computed.
  - repeat constructor; eexists; split; computed.
  - eexists. split; computed.
  - repeat constructor; try (eexists; computed); by vm_compute.
  - by vm_compute.
  - computed.
  - exists summary1. split; [exact Hget|]. split; [exact Htotal|].
    rewrite !Hkinds. split; computed.
Defined.

(** Group g1 updated to the records b, a, then asked for by [GetDatas]. *)
Lemma GetDatas_after_Update_witness :
  ∃ records',
    RuntimeStore.GetDatas Data.key Crowd.updated
      = [Data.data Data.runtime (Some <$> records')] ∧
    records' ≡ₚ [Data.text_b; Data.text_a] ∧
    StronglySorted uid_lt records'.
Proof.
  apply (GetDatas_after_Update (codec := Sample.codec)
           (Data.data Data.runtime [Some Data.text_b; Some Data.text_a])
           Data.runtime [Data.text_b; Data.text_a] Crowd.crowded Crowd.updated
           eq_refl eq_refl eq_refl).
  - computed.
  - apply (bool_decide_unpack _). computed.
  - repeat constructor; eexists; split; computed.
  - eexists. split; computed.
  - computed.
Defined.


(** A text of size 10 and a form of size 24 added to a summary that counts
    five bytes of text. *)
Lemma GetSummary_accumulates_witness :
  ∃ summary1,
    RuntimeStore.GetSummary Data.key Crowd.five_of_text Data.stored
      = Some (E_OK, summary1) ∧
    totalSize summary1 = 39 ∧
    summary summary1 !! "Text" = Some 15 ∧
    summary summary1 !! "SystemDefinedForm" = Some 24 ∧
    Summary_wf summary1.
Proof.
  destruct (GetSummary_accumulates (codec := Sample.codec) Data.key Crowd.five_of_text
              Data.stored (Data.data Data.runtime [Some Data.text_a; Some Data.form_c])
              [Data.text_a; Data.form_c])
    as (summary1 & Hget & Htotal & Hkinds & Hwf).
  - computed.
  - reflexivity.
  - split; [|computed]. intros name size Hentry.
    change (({[ "Text" := 5 ]} : gmap string Z) !! name = Some size) in Hentry.
    apply lookup_singleton_Some in Hentry as [_ <-]. lia.
  - repeat constructor; try (eexists; computed); by vm_compute.
  - by vm_compute.
  - exists summary1. split; [exact Hget|]. split; [exact Htotal|].
    rewrite !Hkinds. split; [computed|]. split; [computed|exact Hwf].
Defined.
